(** * Gesture-driven particle choreography: a shallow embedding

    The development follows the single-file application (types, layout
    helpers, the three particle groups, the hand manager and the main
    component).  JavaScript numbers are idealised as real numbers:
    [Math.hypot x y] is [sqrt (x*x + y*y)], arithmetic is exact, and
    [Math.random ()] is a draw from an explicit stream.  Rounding is left
    out, except for the interpolation step, which section 12 gives with
    the rounding of each operation. *)

From Stdlib Require Import Floats.
From Stdlib Require Import Reals Lra Lia List Bool Arith ZArith String.
Import ListNotations.
Local Open Scope R_scope.

(* ================================================================== *)
(** * 1. Types and constants *)
(* ================================================================== *)

Inductive AppMode : Type := TREE | SCATTER | INSPECT.

Inductive Gesture : Type := FIST | OPEN | PINCH | NONE.

Record Point2 : Type := mkPoint2 { px : R; py : R }.

Record HandGestureState : Type := mkHand {
  isHandDetected : bool;
  gesture : Gesture;
  handPosition : Point2
}.

Definition TREE_HEIGHT : R := 18.
Definition TREE_RADIUS : R := 7.5.

Definition AppMode_eqb (a b : AppMode) : bool :=
  match a, b with
  | TREE, TREE | SCATTER, SCATTER | INSPECT, INSPECT => true
  | _, _ => false
  end.

(** Comparisons of numbers, as booleans. *)
Definition Rltb (x y : R) : bool := if Rlt_dec x y then true else false.
Definition Rgtb (x y : R) : bool := Rltb y x.
Definition Reqb (x y : R) : bool := if Req_dec_T x y then true else false.

(* ================================================================== *)
(** * 2. Numbers, vectors and the random source *)
(* ================================================================== *)

(** [Math.hypot] on two arguments. *)
Definition hypot (x y : R) : R := sqrt (x * x + y * y).

(** The distance of two points of the image plane. *)
Definition dist2D (a b : Point2) : R := hypot (px a - px b) (py a - py b).

(** [Math.pow base e] for [0 <= base] and [0 < e]; zero is a case of its
    own. *)
Definition Math_pow (base e : R) : R :=
  if Reqb base 0 then 0 else Rpower base e.

(** [Math.floor] on a non-negative number, as an array index. *)
Definition Math_floor (x : R) : nat := Z.to_nat (Int_part x).

Module Vector3.

Record t : Type := mk { x : R; y : R; z : R }.

Definition zero : t := mk 0 0 0.

Definition multiplyScalar (v : t) (k : R) : t :=
  mk (x v * k) (y v * k) (z v * k).

Definition add (v w : t) : t := mk (x v + x w) (y v + y w) (z v + z w).

(** [this.x += (v.x - this.x) * alpha], and the same for y and z. *)
Definition lerp (this v : t) (alpha : R) : t :=
  mk (x this + (x v - x this) * alpha)
     (y this + (y v - y this) * alpha)
     (z this + (z v - z this) * alpha).

Definition distanceTo (v w : t) : R :=
  sqrt ((x v - x w) * (x v - x w) + (y v - y w) * (y v - y w)
        + (z v - z w) * (z v - z w)).

Definition ofArray (a : R * R * R) : t :=
  let '(a0, a1, a2) := a in mk a0 a1 a2.

Definition toArray (v : t) : R * R * R := (x v, y v, z v).

(** [n] frames of [cur.lerp(target, alpha)] towards a target that does
    not move. *)
Definition approach (target : t) (alpha : R) (n : nat) (cur : t) : t :=
  Nat.iter n (fun c => lerp c target alpha) cur.

End Vector3.

(** [THREE.Color], by its three channels. *)
Module Color.

Record t : Type := mk { r : R; g : R; b : R }.

Definition lerpColors (c1 c2 : t) (alpha : R) : t :=
  mk (r c1 + (r c2 - r c1) * alpha)
     (g c1 + (g c2 - g c1) * alpha)
     (b c1 + (b c2 - b c1) * alpha).

Definition lerp (this c : t) (alpha : R) : t :=
  mk (r this + (r c - r this) * alpha)
     (g this + (g c - g this) * alpha)
     (b this + (b c - b this) * alpha).

Definition multiplyScalar (c : t) (k : R) : t := mk (r c * k) (g c * k) (b c * k).

End Color.

(** The random source: the values the successive calls of [Math.random]
    return.  A computation that draws threads the rest of the stream. *)
Module Rand.

Definition Stream : Type := nat -> R.

Definition valid (s : Stream) : Prop := forall k, 0 <= s k < 1.

Definition M (A : Type) : Type := Stream -> A * Stream.

Definition ret {A} (a : A) : M A := fun s => (a, s).

Definition bind {A B} (m : M A) (f : A -> M B) : M B :=
  fun s => let '(a, s') := m s in f a s'.

Definition random : M R := fun s => (s 0%nat, fun k => s (S k)).

(** The stream that first returns the listed values and then [d] for
    ever. *)
Definition ofList (l : list R) (d : R) : Stream := fun k => nth k l d.

Definition const (d : R) : Stream := fun _ => d.

(** The stream after [k] draws. *)
Definition drop (k : nat) (s : Stream) : Stream := fun i => s (k + i)%nat.

End Rand.

Notation "x <- m ;; k" := (Rand.bind m (fun x => k))
  (at level 61, m at next level, right associativity).

(** A [for (let i = 0; i < count; i++)] loop that pushes one element per
    round. *)
Fixpoint forPush {A} (body : nat -> Rand.M A) (i rounds : nat) : Rand.M (list A) :=
  match rounds with
  | O => Rand.ret []
  | S k => a <- body i ;; rest <- forPush body (S i) k ;; Rand.ret (a :: rest)
  end.

(** [useMemo]: the cell keeps the dependencies and the value of the last
    computation. *)
Definition useMemo {A} (cell : option (nat * A)) (dep : nat) (compute : Rand.M A)
  : Rand.M A :=
  match cell with
  | Some (d, v) => if Nat.eqb d dep then Rand.ret v else compute
  | None => compute
  end.

(* ================================================================== *)
(** * 3. Layout helpers *)
(* ================================================================== *)

Record TreeData : Type := mkTreeData {
  pos : Vector3.t;
  angle : R;
  r : R;
  radiusAtHeight : R;
  yPercent : R
}.

Definition getTreeData (index total : R) : Rand.M TreeData :=
  let y := (index / total) * TREE_HEIGHT - (TREE_HEIGHT / 2) in
  let yPercent := (y + TREE_HEIGHT / 2) / TREE_HEIGHT in
  let radiusAtHeight := ((TREE_HEIGHT / 2) - y) * (TREE_RADIUS / TREE_HEIGHT) in
  u <- Rand.random ;;
  let r := radiusAtHeight * Math_pow u 0.4 in
  let angle := index * 2.39996 in
  let x := cos angle * r in
  let z := sin angle * r in
  Rand.ret (mkTreeData (Vector3.mk x y z) angle r radiusAtHeight yPercent).

Definition getScatterPos : Rand.M (R * R * R) :=
  u0 <- Rand.random ;;
  u1 <- Rand.random ;;
  u2 <- Rand.random ;;
  Rand.ret ((u0 - 0.5) * 50, (u1 - 0.5) * 40, (u2 - 0.5) * 30).

(* ================================================================== *)
(** * 4. Particle groups *)
(* ================================================================== *)

Module Foliage.

Record Particle : Type := mkParticle {
  initialPos : Vector3.t;
  treePos : Vector3.t;
  currentPos : Vector3.t;
  scale : R;
  color : Color.t;
  phase : R
}.

Definition GLOW_INTENSITY : R := 4.

Section Palette.

Variables C_DARK_GREEN C_MID_GREEN C_LITE_GREEN : Color.t.

(** One round of the loop inside [useMemo]. *)
Definition makeParticle (count i : nat) : Rand.M Particle :=
  td <- getTreeData (INR i) (INR count) ;;
  u <- Rand.random ;;
  let baseColor := Color.lerpColors C_DARK_GREEN C_LITE_GREEN u in
  v <- Rand.random ;;
  let baseColor := if Rgtb v 0.8 then Color.lerp baseColor C_MID_GREEN 0.5
                   else baseColor in
  let hdrColor := Color.multiplyScalar baseColor GLOW_INTENSITY in
  sp <- getScatterPos ;;
  w <- Rand.random ;;
  ph <- Rand.random ;;
  Rand.ret {| initialPos := Vector3.ofArray sp;
              treePos := pos td;
              currentPos := pos td;
              scale := 0.08 + w * 0.06;
              color := hdrColor;
              phase := ph * PI * 2 |}.

Definition makeParticles (count : nat) : Rand.M (list Particle) :=
  forPush (makeParticle count) 0 count.

(** A render of the component: [particles] comes out of [useMemo] keyed by
    [count]; the cell is the memo of the mounted instance. *)
Definition render (cell : option (nat * list Particle)) (count : nat)
  : Rand.M (option (nat * list Particle)) :=
  ps <- useMemo cell count (makeParticles count) ;;
  Rand.ret (Some (count, ps)).

End Palette.

(** The target of one particle in a frame. *)
Definition target (mode : AppMode) (time : R) (p : Particle) : Vector3.t :=
  match mode with
  | TREE =>
      let t := treePos p in
      Vector3.mk (Vector3.x t + sin (time * 0.5 + Vector3.y t) * 0.05)
                 (Vector3.y t) (Vector3.z t)
  | SCATTER =>
      let t := initialPos p in
      Vector3.mk (Vector3.x t)
                 (Vector3.y t + sin (time * 0.5 + phase p) * 0.5)
                 (Vector3.z t)
  | INSPECT => Vector3.multiplyScalar (initialPos p) 2
  end.

(** The body of [particles.forEach] in [useFrame]: only [currentPos] is
    written. *)
Definition frame (mode : AppMode) (time delta : R) (p : Particle) : Particle :=
  {| initialPos := initialPos p;
     treePos := treePos p;
     currentPos := Vector3.lerp (currentPos p) (target mode time p) (delta * 3);
     scale := scale p;
     color := color p;
     phase := phase p |}.

Definition useFrame (mode : AppMode) (time delta : R) (ps : list Particle)
  : list Particle := map (frame mode time delta) ps.

(** What a particle is given at creation, its position apart. *)
Definition created (p : Particle) : Vector3.t * Vector3.t * R * Color.t * R :=
  (initialPos p, treePos p, scale p, color p, phase p).

(** A sequence of frames, each with its mode, elapsed time and length. *)
Definition play (fs : list (AppMode * R * R)) (ps : list Particle)
  : list Particle :=
  fold_left (fun acc f => let '(m, t, d) := f in useFrame m t d acc) fs ps.

End Foliage.

Module Ribbons.

Record Particle : Type := mkParticle {
  initialPos : Vector3.t;
  treePos : Vector3.t;
  currentPos : Vector3.t;
  color : Color.t;
  phase : R;
  angle : R;
  radius : R;
  y : R;
  trailLength : R
}.

Definition GOLD_INTENSITY : R := 30.
Definition RED_INTENSITY : R := 25.

Section Palette.

Variables C_GOLD_BASE C_RED_BASE : Color.t.

Definition makeParticle (count i : nat) : Rand.M Particle :=
  let t := INR i / INR count in
  let y := t * TREE_HEIGHT - (TREE_HEIGHT / 2) in
  let radiusAtHeight :=
    ((TREE_HEIGHT / 2) - y) * (TREE_RADIUS / TREE_HEIGHT) + 0.6 in
  let isRed := Nat.eqb (i mod 2) 0 in
  let spiralFreq := 6 in
  let angleOffset := if isRed then 0 else PI in
  let angle := (y / TREE_HEIGHT) * PI * 2 * spiralFreq + angleOffset in
  u <- Rand.random ;;
  let spread := (u - 0.5) * 1.5 in
  let finalAngle := angle + spread * 0.1 in
  let x := cos finalAngle * radiusAtHeight in
  let z := sin finalAngle * radiusAtHeight in
  let color := if isRed then Color.multiplyScalar C_RED_BASE RED_INTENSITY
               else Color.multiplyScalar C_GOLD_BASE GOLD_INTENSITY in
  v <- Rand.random ;;
  let trailLength := 0.5 + v * 0.5 in
  sp <- getScatterPos ;;
  ph <- Rand.random ;;
  Rand.ret {| initialPos := Vector3.ofArray sp;
              treePos := Vector3.mk x y z;
              currentPos := Vector3.mk x y z;
              color := color;
              phase := ph * PI * 2;
              angle := finalAngle;
              radius := radiusAtHeight;
              y := y;
              trailLength := trailLength |}.

Definition makeParticles (count : nat) : Rand.M (list Particle) :=
  forPush (makeParticle count) 0 count.

Definition render (cell : option (nat * list Particle)) (count : nat)
  : Rand.M (option (nat * list Particle)) :=
  ps <- useMemo cell count (makeParticles count) ;;
  Rand.ret (Some (count, ps)).

End Palette.

(** The target of one ribbon particle: the TREE branch, and one branch for
    every other mode. *)
Definition target (mode : AppMode) (time : R) (p : Particle) : Vector3.t :=
  match mode with
  | TREE =>
      let flowSpeed := 1 in
      let activeAngle := angle p - time * flowSpeed in
      Vector3.mk (cos activeAngle * radius p) (y p) (sin activeAngle * radius p)
  | _ =>
      let t := initialPos p in
      Vector3.mk (Vector3.x t) (Vector3.y t + sin (time + phase p)) (Vector3.z t)
  end.

Definition frame (mode : AppMode) (time delta : R) (p : Particle) : Particle :=
  {| initialPos := initialPos p;
     treePos := treePos p;
     currentPos := Vector3.lerp (currentPos p) (target mode time p) (delta * 5);
     color := color p;
     phase := phase p;
     angle := angle p;
     radius := radius p;
     y := y p;
     trailLength := trailLength p |}.

Definition useFrame (mode : AppMode) (time delta : R) (ps : list Particle)
  : list Particle := map (frame mode time delta) ps.

(** What a particle is given at creation, its position apart. *)
Definition created (p : Particle)
  : Vector3.t * Vector3.t * Color.t * R * R * R * R * R :=
  (initialPos p, treePos p, color p, phase p, angle p, radius p, y p,
   trailLength p).

(** A sequence of frames, each with its mode, elapsed time and length. *)
Definition play (fs : list (AppMode * R * R)) (ps : list Particle)
  : list Particle :=
  fold_left (fun acc f => let '(m, t, d) := f in useFrame m t d acc) fs ps.

(** A ribbon particle at the foot of the tree whose scatter position is
    (10, 4, -6). *)
Definition sample : Particle :=
  {| initialPos := Vector3.mk 10 4 (-6);
     treePos := Vector3.mk 8.1 (-9) 0;
     currentPos := Vector3.mk 8.1 (-9) 0;
     color := Color.mk 25 0 0;
     phase := 0;
     angle := 0;
     radius := 8.1;
     y := -9;
     trailLength := 0.75 |}.

End Ribbons.

(* ================================================================== *)
(** * 5. Photos *)
(* ================================================================== *)

Module SinglePhoto.

Record Props : Type := mkProps {
  id : nat;
  url : string;
  treePos : R * R * R;
  initialPos : R * R * R;
  mode : AppMode;
  isActive : bool
}.

(** The refs of a mounted photo: [targetPos], [currentPos] and the scale
    of the group it draws. *)
Record Refs : Type := mkRefs {
  targetPos : Vector3.t;
  currentPos : Vector3.t;
  scale : Vector3.t
}.

(** [targetPos] after the mode branches of [useFrame]. *)
Definition target (p : Props) (time : R) : Vector3.t :=
  let '(t0, t1, t2) := treePos p in
  let '(i0, i1, i2) := initialPos p in
  match mode p with
  | TREE =>
      let angle := time * 0.2 + INR (id p) in
      let r := sqrt (t0 ^ 2 + t2 ^ 2) in
      Vector3.mk (cos angle * r) t1 (sin angle * r)
  | SCATTER =>
      Vector3.mk (i0 + sin (time * 0.5 + INR (id p)) * 0.5)
                 (i1 + cos (time * 0.3 + INR (id p)) * 0.5)
                 i2
  | INSPECT =>
      if isActive p then Vector3.mk 0 0 15
      else Vector3.multiplyScalar (Vector3.mk i0 i1 i2) 2
  end.

(** The scale the photo grows or shrinks to. *)
Definition targetScale (p : Props) : Vector3.t :=
  if isActive p && AppMode_eqb (mode p) INSPECT
  then Vector3.mk 6 6 1 else Vector3.mk 2 2 1.

Definition useFrame (p : Props) (time delta : R) (refs : Refs) : Refs :=
  let tp := target p time in
  {| targetPos := tp;
     currentPos := Vector3.lerp (currentPos refs) tp (delta * 3);
     scale := Vector3.lerp (scale refs) (targetScale p) (delta * 3) |}.

End SinglePhoto.

Module PhotoCollection.

(** [i === activeId] with [activeId : number | null]. *)
Definition isActiveId (activeId : option nat) (i : nat) : bool :=
  match activeId with
  | Some a => Nat.eqb i a
  | None => false
  end.

(** The callback of [photos.map], for the photo at index [i]. *)
Definition photoProps (mode : AppMode) (activeId : option nat) (totalCount : nat)
    (i : nat) (url : string) : Rand.M SinglePhoto.Props :=
  td <- getTreeData (INR (i * 10)) (INR totalCount) ;;
  let pos := Vector3.multiplyScalar (pos td) 1.3 in
  sp <- getScatterPos ;;
  Rand.ret {| SinglePhoto.id := i;
              SinglePhoto.url := url;
              SinglePhoto.treePos := Vector3.toArray pos;
              SinglePhoto.initialPos := sp;
              SinglePhoto.mode := mode;
              SinglePhoto.isActive := isActiveId activeId i |}.

Fixpoint mapPhotos (f : nat -> string -> Rand.M SinglePhoto.Props)
    (i : nat) (photos : list string) : Rand.M (list SinglePhoto.Props) :=
  match photos with
  | [] => Rand.ret []
  | u :: rest =>
      p <- f i u ;; ps <- mapPhotos f (S i) rest ;; Rand.ret (p :: ps)
  end.

(** What one call of the component function returns. *)
Definition renderPhotos (mode : AppMode) (photos : list string)
    (activeId : option nat) : Rand.M (list SinglePhoto.Props) :=
  let totalCount := (1000 + List.length photos)%nat in
  mapPhotos (photoProps mode activeId totalCount) 0 photos.

(** The body of the effect on [mode, photos]: the new [activeId]. *)
Definition effect (mode : AppMode) (photos : list string) : Rand.M (option nat) :=
  if AppMode_eqb mode INSPECT && (0 <? List.length photos)%nat then
    u <- Rand.random ;;
    Rand.ret (Some (Math_floor (u * INR (List.length photos))))
  else Rand.ret None.

(** The mounted component: its state cell, the dependencies of its last
    render, the props of an effect that is scheduled and has not run yet,
    and the children of its last render. *)
Record Instance : Type := mkInstance {
  activeId : option nat;
  lastDeps : option (AppMode * list string);
  pendingEffect : option (AppMode * list string);
  shown : list SinglePhoto.Props
}.

Definition unmounted : Instance :=
  {| activeId := None; lastDeps := None; pendingEffect := None; shown := [] |}.

Definition deps_eqb (a : option (AppMode * list string))
    (m : AppMode) (ph : list string) : bool :=
  match a with
  | Some (m0, ph0) =>
      AppMode_eqb m0 m && (if list_eq_dec string_dec ph0 ph then true else false)
  | None => false
  end.

Definition activeId_eqb (a b : option nat) : bool :=
  match a, b with
  | Some i, Some j => Nat.eqb i j
  | None, None => true
  | _, _ => false
  end.

(** Runs the scheduled effect, if there is one. *)
Definition runPending (c : Instance) : Rand.M Instance :=
  match pendingEffect c with
  | Some (m, ph) =>
      a <- effect m ph ;;
      Rand.ret {| activeId := a; lastDeps := lastDeps c;
                  pendingEffect := None; shown := shown c |}
  | None => Rand.ret c
  end.

(** A render with props [mode] and [photos]: a scheduled effect runs
    before the component function is called again, and the effect of this
    render is scheduled when a dependency changed. *)
Definition render (mode : AppMode) (photos : list string) (c : Instance)
  : Rand.M Instance :=
  c1 <- runPending c ;;
  ps <- renderPhotos mode photos (activeId c1) ;;
  Rand.ret {| activeId := activeId c1;
              lastDeps := Some (mode, photos);
              pendingEffect := if deps_eqb (lastDeps c1) mode photos then None
                               else Some (mode, photos);
              shown := ps |}.

(** The scheduled effect runs; [setActiveId] with a new value renders the
    component again with the props of its last render, and with the same
    value it does not. *)
Definition flushEffect (c : Instance) : Rand.M Instance :=
  match pendingEffect c, lastDeps c with
  | Some _, Some (m, ph) =>
      c1 <- runPending c ;;
      if activeId_eqb (activeId c1) (activeId c) then Rand.ret c1
      else
        ps <- renderPhotos m ph (activeId c1) ;;
        Rand.ret {| activeId := activeId c1; lastDeps := lastDeps c1;
                    pendingEffect := None; shown := ps |}
  | _, _ => Rand.ret c
  end.

(** The instance was last rendered with the props [m] and [ph]: its
    children come from that render and from its present [activeId], an
    effect that is scheduled is the one of that render, and with no effect
    scheduled a focus is set in INSPECT mode only. *)
Definition rendered (m : AppMode) (ph : list string) (c : Instance) : Prop :=
  lastDeps c = Some (m, ph)
  /\ (exists s, shown c = fst (renderPhotos m ph (activeId c) s))
  /\ match pendingEffect c with
     | Some d => d = (m, ph)
     | None => m <> INSPECT -> activeId c = None
     end.

End PhotoCollection.

(* ================================================================== *)
(** * 6. Hand manager *)
(* ================================================================== *)

Module Hand.

Inductive Exn : Type := TypeError | DetectorError.

(** A computation that returns or throws. *)
Inductive Result (A : Type) : Type :=
| Ok (a : A)
| Throw (e : Exn).

Arguments Ok {A} a.
Arguments Throw {A} e.

Definition bind {A B} (m : Result A) (f : A -> Result B) : Result B :=
  match m with
  | Ok a => f a
  | Throw e => Throw e
  end.

Definition tryCatch {A} (body : Result A) (handler : Exn -> A) : A :=
  match body with
  | Ok a => a
  | Throw e => handler e
  end.

(** [landmarks[i]], read for its coordinates: a missing entry throws. *)
Definition at_ (landmarks : list Point2) (i : nat) : Result Point2 :=
  match nth_error landmarks i with
  | Some p => Ok p
  | None => Throw TypeError
  end.

Definition isFingerExtended (landmarks : list Point2) (tipIdx mcpIdx : nat)
  : Result bool :=
  bind (at_ landmarks tipIdx) (fun tip =>
  bind (at_ landmarks 0) (fun wrist =>
  bind (at_ landmarks mcpIdx) (fun mcp =>
  let distTip := hypot (px tip - px wrist) (py tip - py wrist) in
  let distMcp := hypot (px mcp - px wrist) (py mcp - py wrist) in
  Ok (Rgtb distTip (distMcp * 1.5))))).

Definition detectGesture (landmarks : list Point2) : Result Gesture :=
  bind (isFingerExtended landmarks 4 2) (fun thumbExtended =>
  bind (isFingerExtended landmarks 8 5) (fun indexExtended =>
  bind (isFingerExtended landmarks 12 9) (fun middleExtended =>
  bind (isFingerExtended landmarks 16 13) (fun ringExtended =>
  bind (isFingerExtended landmarks 20 17) (fun pinkyExtended =>
  let extendedCount :=
    List.length (filter (fun b : bool => b)
      [thumbExtended; indexExtended; middleExtended; ringExtended;
       pinkyExtended]) in
  bind (at_ landmarks 8) (fun l8 =>
  bind (at_ landmarks 4) (fun l4 =>
  let pinchDist := hypot (px l8 - px l4) (py l8 - py l4) in
  if Rltb pinchDist 0.05 then Ok PINCH
  else if Nat.eqb extendedCount 5 then Ok OPEN
  else if Nat.eqb extendedCount 0 then Ok FIST
  else Ok NONE))))))).

(** What [detectForVideo] does on a frame: it throws, or it returns the
    landmarks of the hands it found. *)
Inductive Detection : Type :=
| DetectorThrows
| Detected (hands : list (list Point2)).

Definition detectForVideo (d : Detection) : Result (list (list Point2)) :=
  match d with
  | DetectorThrows => Throw DetectorError
  | Detected hands => Ok hands
  end.

Definition noHand : HandGestureState :=
  {| isHandDetected := false; gesture := NONE;
     handPosition := mkPoint2 0.5 0.5 |}.

(** The prediction loop: the last video time seen, the states handed to
    [onGestureUpdate] so far (latest first), the warnings logged and the
    animation frames requested. *)
Record Loop : Type := mkLoop {
  lastVideoTime : R;
  emitted : list HandGestureState;
  warnings : nat;
  requested : nat
}.

(** The landmark with index [i] of a hand, for statements about complete
    hands. *)
Definition lm (landmarks : list Point2) (i : nat) : Point2 :=
  nth i landmarks (mkPoint2 0 0).

(** The wrist and, for each digit, its tip and its base joint. *)
Definition WRIST : nat := 0.
Definition digits : list (nat * nat) :=
  [(4, 2); (8, 5); (12, 9); (16, 13); (20, 17)]%nat.

(** Whether a digit counts as extended on a complete hand. *)
Definition extended (landmarks : list Point2) (tipIdx mcpIdx : nat) : bool :=
  Rgtb (dist2D (lm landmarks tipIdx) (lm landmarks WRIST))
       (dist2D (lm landmarks mcpIdx) (lm landmarks WRIST) * 1.5).

(** Every digit has its tip at most 1.5 times as far from the wrist as its
    base joint. *)
Definition allCurled (landmarks : list Point2) : Prop :=
  Forall (fun d : nat * nat =>
            dist2D (lm landmarks WRIST) (lm landmarks (fst d))
            <= 1.5 * dist2D (lm landmarks WRIST) (lm landmarks (snd d)))
         digits.

(** Three hands, as the landmarker reports them: a closed fist with the
    thumb across the fingers, a closed fist with the thumb tip resting on
    the tip of the index finger, and an open hand whose thumb and index
    finger pinch. *)
Definition fistHand : list Point2 :=
  [ mkPoint2 0.5 0.8;
    mkPoint2 0.45 0.75; mkPoint2 0.42 0.68; mkPoint2 0.46 0.66; mkPoint2 0.52 0.68;
    mkPoint2 0.46 0.6; mkPoint2 0.45 0.56; mkPoint2 0.45 0.62; mkPoint2 0.46 0.66;
    mkPoint2 0.5 0.58; mkPoint2 0.5 0.54; mkPoint2 0.5 0.61; mkPoint2 0.5 0.66;
    mkPoint2 0.54 0.6; mkPoint2 0.54 0.56; mkPoint2 0.54 0.62; mkPoint2 0.54 0.67;
    mkPoint2 0.58 0.63; mkPoint2 0.58 0.59; mkPoint2 0.58 0.64; mkPoint2 0.57 0.69 ].

Definition fistPinchHand : list Point2 :=
  [ mkPoint2 0.5 0.8;
    mkPoint2 0.45 0.75; mkPoint2 0.42 0.68; mkPoint2 0.44 0.65; mkPoint2 0.47 0.64;
    mkPoint2 0.46 0.6; mkPoint2 0.45 0.56; mkPoint2 0.45 0.62; mkPoint2 0.46 0.66;
    mkPoint2 0.5 0.58; mkPoint2 0.5 0.54; mkPoint2 0.5 0.61; mkPoint2 0.5 0.66;
    mkPoint2 0.54 0.6; mkPoint2 0.54 0.56; mkPoint2 0.54 0.62; mkPoint2 0.54 0.67;
    mkPoint2 0.58 0.63; mkPoint2 0.58 0.59; mkPoint2 0.58 0.64; mkPoint2 0.57 0.69 ].

Definition pinchHand : list Point2 :=
  [ mkPoint2 0.5 0.8;
    mkPoint2 0.45 0.75; mkPoint2 0.42 0.68; mkPoint2 0.42 0.6; mkPoint2 0.44 0.52;
    mkPoint2 0.46 0.6; mkPoint2 0.44 0.54; mkPoint2 0.44 0.5; mkPoint2 0.45 0.5;
    mkPoint2 0.5 0.58; mkPoint2 0.5 0.48; mkPoint2 0.5 0.38; mkPoint2 0.5 0.3;
    mkPoint2 0.54 0.6; mkPoint2 0.55 0.5; mkPoint2 0.56 0.4; mkPoint2 0.56 0.33;
    mkPoint2 0.58 0.63; mkPoint2 0.6 0.55; mkPoint2 0.61 0.47; mkPoint2 0.62 0.4 ].

Definition start : Loop :=
  {| lastVideoTime := -1; emitted := []; warnings := 0; requested := 0 |}.

Definition onGestureUpdate (st : HandGestureState) (l : Loop) : Loop :=
  {| lastVideoTime := lastVideoTime l; emitted := st :: emitted l;
     warnings := warnings l; requested := requested l |}.

Definition warn (l : Loop) : Loop :=
  {| lastVideoTime := lastVideoTime l; emitted := emitted l;
     warnings := S (warnings l); requested := requested l |}.

Definition requestAnimationFrame (l : Loop) : Loop :=
  {| lastVideoTime := lastVideoTime l; emitted := emitted l;
     warnings := warnings l; requested := S (requested l) |}.

(** The body of the [try] block. *)
Definition tryBody (d : Detection) (l : Loop) : Result Loop :=
  bind (detectForVideo d) (fun landmarksOfHands =>
  match landmarksOfHands with
  | landmarks :: _ =>
      bind (at_ landmarks 0) (fun l0 =>
      bind (at_ landmarks 9) (fun l9 =>
      let x := (px l0 + px l9) / 2 in
      let y := (py l0 + py l9) / 2 in
      bind (detectGesture landmarks) (fun gesture =>
      Ok (onGestureUpdate
            {| isHandDetected := true; gesture := gesture;
               handPosition := mkPoint2 (1 - x) y |} l))))
  | [] => Ok (onGestureUpdate noHand l)
  end).

(** One call of [predictWebcam]; [refsReady] says that the landmarker and
    the video element are there, [currentTime] is the time of the video. *)
Definition predictWebcam (refsReady : bool) (currentTime : R) (d : Detection)
    (l : Loop) : Result Loop :=
  if negb refsReady then Ok l
  else
    let l1 :=
      if negb (Reqb currentTime (lastVideoTime l)) then
        let l0 := {| lastVideoTime := currentTime; emitted := emitted l;
                     warnings := warnings l; requested := requested l |} in
        tryCatch (tryBody d l0) (fun _ => warn l0)
      else l in
    Ok (requestAnimationFrame l1).

End Hand.

(* ================================================================== *)
(** * 7. The main component: mode state machine *)
(* ================================================================== *)

Module App.

(** The [useState] cells of [App] that the gesture handler writes, and
    the photo list it reads. *)
Record State : Type := mkState {
  mode : AppMode;
  photos : list string;
  handPos : Point2;
  debugGesture : Gesture
}.

(** [useState] initial values. *)
Definition init : State :=
  {| mode := TREE; photos := []; handPos := mkPoint2 0.5 0.5;
     debugGesture := NONE |}.

(** The functional updater handed to [setMode] on PINCH. *)
Definition pinchUpdater (photosLength : nat) (prev : AppMode) : AppMode :=
  if negb (AppMode_eqb prev INSPECT) && (0 <? photosLength)%nat
  then INSPECT else prev.

(** [handleGestureUpdate]; [photosLength] is the [photos.length] the
    callback closed over. *)
Definition handleGestureUpdate (photosLength : nat)
    (state : HandGestureState) (s : State) : State :=
  let s1 := {| mode := mode s; photos := photos s;
               handPos := handPosition state;
               debugGesture := gesture state |} in
  let setMode (m : AppMode) :=
    {| mode := m; photos := photos s1; handPos := handPos s1;
       debugGesture := debugGesture s1 |} in
  match gesture state with
  | FIST => setMode TREE
  | OPEN => setMode SCATTER
  | PINCH => setMode (pinchUpdater photosLength (mode s1))
  | NONE => s1
  end.

(** [handlePhotoUpload]. *)
Definition handlePhotoUpload (newPhotos : list string) (s : State) : State :=
  {| mode := mode s; photos := photos s ++ newPhotos;
     handPos := handPos s; debugGesture := debugGesture s |}.

(** The events of a list, handled one after the other by a callback that
    closed over [photosLength]. *)
Fixpoint run (photosLength : nat) (events : list HandGestureState) (s : State)
  : State :=
  match events with
  | [] => s
  | e :: rest => run photosLength rest (handleGestureUpdate photosLength e s)
  end.

End App.

(* ================================================================== *)
(** * 8. The main component together with the photo collection *)
(* ================================================================== *)

Module Scene.

Record State : Type := mkState {
  app : App.State;
  collection : PhotoCollection.Instance;
  rng : Rand.Stream
}.

(** What can happen: the hand manager calls the gesture callback it holds
    (which closed over some [photos.length]), photos are uploaded, or the
    scheduled effects run. *)
Inductive Event : Type :=
| GestureEvent (capturedLength : nat) (st : HandGestureState)
| Upload (newPhotos : list string)
| EffectsRun.

(** A state change of [App] renders the photo collection with the new
    props. *)
Definition rerender (a : App.State) (s : State) : State :=
  let '(c, g) :=
    PhotoCollection.render (App.mode a) (App.photos a) (collection s) (rng s) in
  {| app := a; collection := c; rng := g |}.

Definition mount (g : Rand.Stream) : State :=
  rerender App.init
    {| app := App.init; collection := PhotoCollection.unmounted; rng := g |}.

Definition step (e : Event) (s : State) : State :=
  match e with
  | GestureEvent n st => rerender (App.handleGestureUpdate n st (app s)) s
  | Upload newPhotos => rerender (App.handlePhotoUpload newPhotos (app s)) s
  | EffectsRun =>
      let '(c, g) := PhotoCollection.flushEffect (collection s) (rng s) in
      {| app := app s; collection := c; rng := g |}
  end.

Fixpoint exec (events : list Event) (s : State) : State :=
  match events with
  | [] => s
  | e :: rest => exec rest (step e s)
  end.

(** The photos of the upload events of a list, in order. *)
Fixpoint uploaded (events : list Event) : list string :=
  match events with
  | [] => []
  | Upload newPhotos :: rest => newPhotos ++ uploaded rest
  | _ :: rest => uploaded rest
  end.

(** The photos that are drawn as focused. *)
Definition focused (s : State) : list SinglePhoto.Props :=
  filter SinglePhoto.isActive (PhotoCollection.shown (collection s)).

(** The invariant of the scene: the collection was last rendered with the
    mode and the photos of [App]. *)
Definition consistent (s : State) : Prop :=
  PhotoCollection.rendered (App.mode (app s)) (App.photos (app s))
    (collection s).

End Scene.

(* ================================================================== *)
(** * 9. The scene group: parallax and idle rotation *)
(* ================================================================== *)

Module Experience.

(** The two Euler angles of the group that [useFrame] writes. *)
Record Rotation : Type := mkRotation { rotX : R; rotY : R }.

(** [THREE.MathUtils.lerp]. *)
Definition MathUtils_lerp (x y t : R) : R := (1 - t) * x + t * y.

(** The body of [useFrame]; [mounted] says that [groupRef.current] is
    there. *)
Definition useFrame (mounted : bool) (mode : AppMode) (handPos : Point2)
    (delta : R) (rot : Rotation) : Rotation :=
  if mounted && AppMode_eqb mode SCATTER then
    let targetRotX := (py handPos - 0.5) * 1 in
    let targetRotY := (px handPos - 0.5) * 1 in
    {| rotX := MathUtils_lerp (rotX rot) targetRotX (delta * 2);
       rotY := MathUtils_lerp (rotY rot) targetRotY (delta * 2) |}
  else if mounted && AppMode_eqb mode TREE then
    {| rotX := MathUtils_lerp (rotX rot) 0 (delta * 2);
       rotY := rotY rot + delta * 0.1 |}
  else rot.

(** The rotation is within half a radian about both axes. *)
Definition withinParallax (rot : Rotation) : Prop :=
  -0.5 <= rotX rot <= 0.5 /\ -0.5 <= rotY rot <= 0.5.

(** Frames of constant length in one mode, the hand staying where it
    is. *)
Definition frames (mode : AppMode) (handPos : Point2) (delta : R) (n : nat)
    (rot : Rotation) : Rotation :=
  Nat.iter n (useFrame true mode handPos delta) rot.

End Experience.

(* ================================================================== *)
(** * 10. The prediction loop and the callback it holds *)
(* ================================================================== *)

Module Session.

(** The state of [App], and the [photos.length] inside the gesture
    callback that the running prediction loop calls.  The loop is set up by
    an effect on [stream, modelLoaded]: it keeps the [onGestureUpdate] of
    the render in which that effect ran. *)
Record State : Type := mkState {
  app : App.State;
  loop : option nat
}.

Inductive Event : Type :=
| LoopStarts
| Upload (newPhotos : list string)
| Frame (st : HandGestureState).

Definition step (e : Event) (s : State) : State :=
  match e with
  | LoopStarts =>
      {| app := app s; loop := Some (List.length (App.photos (app s))) |}
  | Upload newPhotos =>
      {| app := App.handlePhotoUpload newPhotos (app s); loop := loop s |}
  | Frame st =>
      match loop s with
      | Some n => {| app := App.handleGestureUpdate n st (app s); loop := loop s |}
      | None => s
      end
  end.

Fixpoint exec (events : list Event) (s : State) : State :=
  match events with
  | [] => s
  | e :: rest => exec rest (step e s)
  end.

Definition init : State := {| app := App.init; loop := None |}.

Definition isLoopStart (e : Event) : bool :=
  match e with
  | LoopStarts => true
  | _ => false
  end.

End Session.

(* ================================================================== *)
(** * 11. Hand poses and maps of the image plane *)
(* ================================================================== *)

Module Poses.

(** Every digit has its tip more than 1.5 times as far from the wrist as
    its base joint. *)
Definition allExtended (landmarks : list Point2) : Prop :=
  Forall (fun d : nat * nat =>
            1.5 * dist2D (Hand.lm landmarks Hand.WRIST) (Hand.lm landmarks (snd d))
            < dist2D (Hand.lm landmarks Hand.WRIST) (Hand.lm landmarks (fst d)))
         Hand.digits.

(** An open hand, and a hand that points with the index finger. *)
Definition openHand : list Point2 :=
  [ mkPoint2 0.5 0.8;
    mkPoint2 0.45 0.75; mkPoint2 0.42 0.68; mkPoint2 0.36 0.61; mkPoint2 0.3 0.55;
    mkPoint2 0.46 0.6; mkPoint2 0.44 0.5; mkPoint2 0.43 0.4; mkPoint2 0.42 0.3;
    mkPoint2 0.5 0.58; mkPoint2 0.5 0.46; mkPoint2 0.5 0.35; mkPoint2 0.5 0.25;
    mkPoint2 0.54 0.6; mkPoint2 0.55 0.5; mkPoint2 0.57 0.4; mkPoint2 0.58 0.3;
    mkPoint2 0.58 0.63; mkPoint2 0.6 0.55; mkPoint2 0.62 0.47; mkPoint2 0.64 0.4 ].

Definition pointingHand : list Point2 :=
  [ mkPoint2 0.5 0.8;
    mkPoint2 0.45 0.75; mkPoint2 0.42 0.68; mkPoint2 0.46 0.66; mkPoint2 0.52 0.68;
    mkPoint2 0.46 0.6; mkPoint2 0.45 0.5; mkPoint2 0.45 0.4; mkPoint2 0.45 0.3;
    mkPoint2 0.5 0.58; mkPoint2 0.5 0.54; mkPoint2 0.5 0.61; mkPoint2 0.5 0.66;
    mkPoint2 0.54 0.6; mkPoint2 0.54 0.56; mkPoint2 0.54 0.62; mkPoint2 0.54 0.67;
    mkPoint2 0.58 0.63; mkPoint2 0.58 0.59; mkPoint2 0.58 0.64; mkPoint2 0.57 0.69 ].

(** A shift of the image plane, and the mirror image of a front
    camera. *)
Definition translate (dx dy : R) (p : Point2) : Point2 :=
  mkPoint2 (px p + dx) (py p + dy).

Definition mirror (p : Point2) : Point2 := mkPoint2 (1 - px p) (py p).

(** A landmark with normalised coordinates. *)
Definition normalised (p : Point2) : Prop :=
  0 <= px p <= 1 /\ 0 <= py p <= 1.

End Poses.

(* ================================================================== *)
(** * 12. Interpolation with rounding *)
(* ================================================================== *)

(** [this.x += (v.x - this.x) * alpha] as a machine computes it: the
    difference, the product and the sum are each rounded.  [rnd] is the
    rounding of one operation. *)
Module Rounded.

(** Every result is off by at most the relative error [u], plus [eta] for
    results that underflow. *)
Definition accurate (rnd : R -> R) (u eta : R) : Prop :=
  forall y, Rabs (rnd y - y) <= u * Rabs y + eta.

Definition lerp1 (rnd : R -> R) (x t alpha : R) : R :=
  rnd (x + rnd (rnd (t - x) * alpha)).

Definition lerp (rnd : R -> R) (this v : Vector3.t) (alpha : R) : Vector3.t :=
  Vector3.mk (lerp1 rnd (Vector3.x this) (Vector3.x v) alpha)
             (lerp1 rnd (Vector3.y this) (Vector3.y v) alpha)
             (lerp1 rnd (Vector3.z this) (Vector3.z v) alpha).

Definition approach (rnd : R -> R) (target : Vector3.t) (alpha : R) (n : nat)
    (cur : Vector3.t) : Vector3.t :=
  Nat.iter n (fun c => lerp rnd c target alpha) cur.

(** The factor by which a frame shrinks the distance, and what rounding
    can add to the distance in a frame. *)
Definition factor (alpha u : R) : R :=
  (1 + u) * (1 - alpha * (1 - 2 * u - u * u)).

Definition slack (alpha u eta : R) (target : Vector3.t) : R :=
  u * Vector3.distanceTo target Vector3.zero
  + sqrt 3 * (((1 + u) * (1 + alpha + u * alpha) + 1) * eta).

(** The length of a vector given by its coordinates. *)
Definition norm3 (a b c : R) : R := sqrt (a * a + b * b + c * c).

(** A rounding that is off by the full relative error on every result. *)
Definition inflate (u : R) (y : R) : R := y * (1 + u).

(** The two error bounds of binary64 arithmetic, rounding to nearest. *)
Definition u64 : R := / 2 ^ 53.
Definition eta64 : R := / 2 ^ 1075.

End Rounded.

(** The same line in binary64, one coordinate. *)
Module Double.

Definition lerp1 (x t alpha : float) : float := (x + (t - x) * alpha)%float.

Fixpoint frames (n : nat) (x t alpha : float) : float :=
  match n with
  | O => x
  | S k => frames k (lerp1 x t alpha) t alpha
  end.

(** [delta * 3] for frames of 1/60 s. *)
Definition alpha60 : float := (1 / 60 * 3)%float.

End Double.

(* ================================================================== *)
(** * Theorems *)
(* ================================================================== *)

Section ModeController.

Variable n : nat.

Lemma pinchUpdater_spec (prev : AppMode) :
  App.pinchUpdater n prev =
    match prev with
    | INSPECT => INSPECT
    | _ => if (0 <? n)%nat then INSPECT else prev
    end.
Proof. destruct prev; unfold App.pinchUpdater; simpl; reflexivity. Qed.

Lemma mode_after_pinch (d : bool) (p : Point2) (s : App.State) :
  App.mode (App.handleGestureUpdate n (mkHand d PINCH p) s)
  = App.pinchUpdater n (App.mode s).
Proof. reflexivity. Qed.

Lemma run_pinch_inspect (d : bool) (p : Point2) (k : nat) :
  forall s, App.mode s = INSPECT ->
  App.mode (App.run n (repeat (mkHand d PINCH p) k) s) = INSPECT.
Proof.
  induction k as [|k IH]; intros s Hs; simpl.
  - exact Hs.
  - apply IH. rewrite mode_after_pinch, Hs. reflexivity.
Qed.

End ModeController.

Lemma run_pinch_no_photos (d : bool) (p : Point2) (k : nat) :
  forall s, App.mode (App.run 0 (repeat (mkHand d PINCH p) k) s) = App.mode s.
Proof.
  induction k as [|k IH]; intros s; simpl.
  - reflexivity.
  - rewrite IH, mode_after_pinch, pinchUpdater_spec.
    destruct (App.mode s); reflexivity.
Qed.

(** The handler on a PINCH event, for the photo count [n] that the
    callback closed over: the mode goes to INSPECT exactly when it is not
    INSPECT and [n] is positive, and is left as it was in every other
    case.  From INSPECT any number of PINCH events leaves the mode at
    INSPECT, and with [n = 0] no number of PINCH events changes the
    mode. *)
Lemma pinch_transition (n : nat) (d : bool) (p : Point2) (s : App.State) :
  let ev := mkHand d PINCH p in
  let m' := App.mode (App.handleGestureUpdate n ev s) in
  ((m' = INSPECT /\ m' <> App.mode s) <->
     (App.mode s <> INSPECT /\ (0 < n)%nat))
  /\ (~ (App.mode s <> INSPECT /\ (0 < n)%nat) -> m' = App.mode s)
  /\ (forall k, App.mode s = INSPECT ->
        App.mode (App.run n (repeat ev k) s) = INSPECT)
  /\ (forall k, App.mode (App.run 0 (repeat ev k) s) = App.mode s).
Proof.
  cbv zeta. rewrite mode_after_pinch, pinchUpdater_spec.
  split; [|split; [|split]].
  - destruct (App.mode s), n as [|k]; simpl; split;
      intros [H1 H2]; split; try congruence; try lia.
  - destruct (App.mode s), n as [|k]; simpl; intros H; try reflexivity;
      exfalso; apply H; split; try discriminate; lia.
  - intros k Hs. apply run_pinch_inspect, Hs.
  - intros k. apply run_pinch_no_photos.
Qed.

(** C1 fails on the program.  The prediction loop calls the gesture
    callback of the render in which it was set up; when photos are
    uploaded after that, a PINCH event arrives with the mode TREE and a
    positive photo count, and the mode stays TREE.  A callback made with
    the present photo count would have entered INSPECT. *)
Theorem pinch_after_late_upload_stays_tree (newPhotos : list string)
    (d : bool) (p : Point2) :
  let before :=
    Session.exec [Session.LoopStarts; Session.Upload newPhotos] Session.init in
  let after := Session.step (Session.Frame (mkHand d PINCH p)) before in
  App.mode (Session.app before) = TREE
  /\ App.photos (Session.app before) = newPhotos
  /\ App.mode (Session.app after) = TREE
  /\ (newPhotos <> [] ->
      App.mode (App.handleGestureUpdate (List.length newPhotos)
                  (mkHand d PINCH p) (Session.app before)) = INSPECT).
Proof.
  cbv zeta. repeat match goal with |- _ /\ _ => split end; try reflexivity.
  intros Hne. destruct newPhotos as [|u rest]; [contradiction|]. reflexivity.
Qed.

(** C2. The mode starts as TREE.  A FIST event sets it to TREE and an OPEN
    event sets it to SCATTER, whatever the mode was (INSPECT included) and
    whatever the photo count; a NONE event leaves it as it was. *)
Theorem fist_open_none (n : nat) (d : bool) (p : Point2) (s : App.State) :
  App.mode App.init = TREE
  /\ App.mode (App.handleGestureUpdate n (mkHand d FIST p) s) = TREE
  /\ App.mode (App.handleGestureUpdate n (mkHand d OPEN p) s) = SCATTER
  /\ App.mode (App.handleGestureUpdate n (mkHand d NONE p) s) = App.mode s.
Proof. repeat split. Qed.

(* ------------------------------------------------------------------ *)
(** ** Gesture classifier *)
(* ------------------------------------------------------------------ *)

Section Hypot.

Lemma hypot_arg_nonneg (a b : R) : 0 <= a * a + b * b.
Proof. nra. Qed.

Lemma hypot_nonneg (a b : R) : 0 <= hypot a b.
Proof. apply sqrt_pos. Qed.

Lemma hypot_sym (a b c d : R) : hypot (a - b) (c - d) = hypot (b - a) (d - c).
Proof. unfold hypot. f_equal. ring. Qed.

Lemma dist2D_sym (p q : Point2) : dist2D p q = dist2D q p.
Proof. apply hypot_sym. Qed.

Lemma hypot_lt_const (a b c : R) :
  0 <= c -> (hypot a b < c <-> a * a + b * b < c * c).
Proof.
  intros Hc. unfold hypot. rewrite <- (sqrt_square c) at 1 by exact Hc.
  split; intros H.
  - apply sqrt_lt_0_alt, H.
  - apply sqrt_lt_1_alt. split; [apply hypot_arg_nonneg | exact H].
Qed.

Lemma hypot_scaled (c d : R) :
  hypot c d * 1.5 = sqrt ((c * c + d * d) * 2.25).
Proof.
  unfold hypot. rewrite sqrt_mult_alt by apply hypot_arg_nonneg.
  f_equal. replace 2.25 with (1.5 * 1.5) by lra.
  rewrite sqrt_square; lra.
Qed.

Lemma hypot_scaled_lt (a b c d : R) :
  hypot c d * 1.5 < hypot a b <-> (c * c + d * d) * 2.25 < a * a + b * b.
Proof.
  rewrite hypot_scaled. unfold hypot. split; intros H.
  - apply sqrt_lt_0_alt, H.
  - apply sqrt_lt_1_alt. split; [|exact H].
    pose proof (hypot_arg_nonneg c d). lra.
Qed.

Lemma hypot_scaled_le (a b c d : R) :
  hypot a b <= 1.5 * hypot c d <-> a * a + b * b <= (c * c + d * d) * 2.25.
Proof.
  pose proof (hypot_scaled_lt a b c d) as H.
  split; intros Hle.
  - apply Rnot_lt_le. intros Hlt. apply H in Hlt. lra.
  - apply Rnot_lt_le. intros Hlt.
    assert (Hlt' : hypot c d * 1.5 < hypot a b) by lra.
    apply H in Hlt'. lra.
Qed.

Lemma Rltb_true (x y : R) : Rltb x y = true <-> x < y.
Proof. unfold Rltb. destruct (Rlt_dec x y); split; intros; easy. Qed.

Lemma Rltb_false (x y : R) : Rltb x y = false <-> y <= x.
Proof.
  unfold Rltb. destruct (Rlt_dec x y); split; intros; try easy; lra.
Qed.

End Hypot.

Section Classifier.

Variable landmarks : list Point2.
Hypothesis complete : List.length landmarks = 21%nat.

Lemma at_lm (i : nat) : (i < 21)%nat -> Hand.at_ landmarks i = Hand.Ok (Hand.lm landmarks i).
Proof.
  intros Hi. unfold Hand.at_, Hand.lm.
  destruct (nth_error landmarks i) eqn:E.
  - f_equal. symmetry. apply nth_error_nth, E.
  - apply nth_error_None in E. lia.
Qed.

Lemma isFingerExtended_lm (tipIdx mcpIdx : nat) :
  (tipIdx < 21)%nat -> (mcpIdx < 21)%nat ->
  Hand.isFingerExtended landmarks tipIdx mcpIdx = Hand.Ok (Hand.extended landmarks tipIdx mcpIdx).
Proof.
  intros Ht Hm. unfold Hand.isFingerExtended.
  rewrite !at_lm by lia. reflexivity.
Qed.

Lemma detectGesture_complete :
  Hand.detectGesture landmarks =
  Hand.Ok
    (let extendedCount :=
       List.length (filter (fun b : bool => b)
         [Hand.extended landmarks 4 2; Hand.extended landmarks 8 5;
          Hand.extended landmarks 12 9; Hand.extended landmarks 16 13;
          Hand.extended landmarks 20 17]) in
     if Rltb (dist2D (Hand.lm landmarks 8) (Hand.lm landmarks 4)) 0.05 then PINCH
     else if Nat.eqb extendedCount 5 then OPEN
     else if Nat.eqb extendedCount 0 then FIST
     else NONE).
Proof.
  unfold Hand.detectGesture.
  rewrite !isFingerExtended_lm by lia. cbn [Hand.bind].
  rewrite !at_lm by lia. cbn [Hand.bind]. cbv zeta.
  fold (dist2D (Hand.lm landmarks 8) (Hand.lm landmarks 4)).
  destruct (Rltb _ 0.05); [reflexivity|].
  destruct (Nat.eqb _ 5); [reflexivity|].
  destruct (Nat.eqb _ 0); reflexivity.
Qed.

Lemma curled_not_extended (tipIdx mcpIdx : nat) :
  dist2D (Hand.lm landmarks Hand.WRIST) (Hand.lm landmarks tipIdx)
  <= 1.5 * dist2D (Hand.lm landmarks Hand.WRIST) (Hand.lm landmarks mcpIdx) ->
  Hand.extended landmarks tipIdx mcpIdx = false.
Proof.
  intros H. unfold Hand.extended, Rgtb. apply Rltb_false.
  rewrite (dist2D_sym (Hand.lm landmarks tipIdx)),
          (dist2D_sym (Hand.lm landmarks mcpIdx)). lra.
Qed.

Lemma allCurled_count :
  Hand.allCurled landmarks ->
  filter (fun b : bool => b)
    [Hand.extended landmarks 4 2; Hand.extended landmarks 8 5;
     Hand.extended landmarks 12 9; Hand.extended landmarks 16 13;
     Hand.extended landmarks 20 17] = [].
Proof.
  unfold Hand.allCurled, Hand.digits. intros H.
  repeat match goal with
         | H : Forall _ (_ :: _) |- _ => inversion H; subst; clear H
         end.
  cbn [fst snd] in *.
  rewrite !curled_not_extended by assumption. reflexivity.
Qed.

End Classifier.

Lemma detectGesture_pinch (landmarks : list Point2) :
  List.length landmarks = 21%nat ->
  dist2D (Hand.lm landmarks 4) (Hand.lm landmarks 8) < 0.05 ->
  Hand.detectGesture landmarks = Hand.Ok PINCH.
Proof.
  intros Hlen Hd. rewrite detectGesture_complete by exact Hlen. cbv zeta.
  rewrite dist2D_sym in Hd. apply Rltb_true in Hd. rewrite Hd. reflexivity.
Qed.

Lemma detectGesture_fist (landmarks : list Point2) :
  List.length landmarks = 21%nat ->
  Hand.allCurled landmarks ->
  0.05 <= dist2D (Hand.lm landmarks 4) (Hand.lm landmarks 8) ->
  Hand.detectGesture landmarks = Hand.Ok FIST.
Proof.
  intros Hlen Hc Hd. rewrite detectGesture_complete by exact Hlen. cbv zeta.
  rewrite dist2D_sym in Hd. apply Rltb_false in Hd. rewrite Hd.
  rewrite allCurled_count by assumption. reflexivity.
Qed.

Ltac squares :=
  unfold dist2D, Hand.lm, Hand.WRIST, Hand.pinchHand, Hand.fistHand,
    Hand.fistPinchHand;
  cbn [nth px py].

Ltac curled :=
  unfold Hand.allCurled, Hand.digits;
  repeat first [apply Forall_nil | apply Forall_cons];
  cbn [fst snd]; squares; apply hypot_scaled_le; lra.

(** C3. On a hand of 21 landmarks whose thumb tip (4) and index fingertip
    (8) are less than 0.05 apart, the classifier answers PINCH, whatever
    the positions of the other landmarks, hence however many digits count
    as extended. *)
Theorem pinch_precedes_extension (landmarks : list Point2) :
  List.length landmarks = 21%nat ->
  dist2D (Hand.lm landmarks 4) (Hand.lm landmarks 8) < 0.05 ->
  Hand.detectGesture landmarks = Hand.Ok PINCH.
Proof. apply detectGesture_pinch. Qed.

Lemma pinch_precedes_extension_witness :
  Hand.detectGesture Hand.pinchHand = Hand.Ok PINCH.
Proof.
  apply (pinch_precedes_extension Hand.pinchHand).
  - reflexivity.
  - squares. apply hypot_lt_const; lra.
Defined.

(** C4, as the specification words it, fails: a closed fist whose thumb
    tip rests on the tip of the index finger has every digit curled, and
    the classifier answers PINCH. *)
Lemma curled_fist_can_pinch :
  List.length Hand.fistPinchHand = 21%nat
  /\ Hand.allCurled Hand.fistPinchHand
  /\ Hand.detectGesture Hand.fistPinchHand = Hand.Ok PINCH
  /\ Hand.detectGesture Hand.fistPinchHand <> Hand.Ok FIST.
Proof.
  assert (Hp : Hand.detectGesture Hand.fistPinchHand = Hand.Ok PINCH).
  { apply detectGesture_pinch; [reflexivity|].
    squares. apply hypot_lt_const; lra. }
  split; [reflexivity|]. split; [|split; [exact Hp|rewrite Hp; discriminate]].
  curled.
Qed.

(** C4, amended.  On a hand of 21 landmarks on which every digit has its
    tip at most 1.5 times as far from the wrist as its base joint, and
    whose thumb tip and index fingertip are at least 0.05 apart, the
    classifier answers FIST. *)
Theorem curled_without_pinch_is_fist (landmarks : list Point2) :
  List.length landmarks = 21%nat ->
  Hand.allCurled landmarks ->
  0.05 <= dist2D (Hand.lm landmarks 4) (Hand.lm landmarks 8) ->
  Hand.detectGesture landmarks = Hand.Ok FIST.
Proof. apply detectGesture_fist. Qed.

Lemma curled_without_pinch_is_fist_witness :
  Hand.detectGesture Hand.fistHand = Hand.Ok FIST.
Proof.
  apply (curled_without_pinch_is_fist Hand.fistHand).
  - reflexivity.
  - curled.
  - squares. apply Rnot_lt_le. intros H.
    apply hypot_lt_const in H; lra.
Defined.

(* ------------------------------------------------------------------ *)
(** ** Targets in INSPECT mode *)
(* ------------------------------------------------------------------ *)

(** C5, as the specification words it, fails for ribbons: in INSPECT mode
    the ribbon with scatter position (10, 4, -6) aims at x = 10, not at
    the doubled x = 20. *)
Lemma ribbon_inspect_not_doubled :
  Vector3.x (Ribbons.target INSPECT 0 Ribbons.sample) = 10
  /\ Vector3.x (Vector3.multiplyScalar (Ribbons.initialPos Ribbons.sample) 2) = 20
  /\ Ribbons.target INSPECT 0 Ribbons.sample
     <> Vector3.multiplyScalar (Ribbons.initialPos Ribbons.sample) 2.
Proof.
  cbn [Ribbons.target Ribbons.sample Ribbons.initialPos Vector3.x
       Vector3.y Vector3.z Vector3.multiplyScalar].
  split; [reflexivity|]. split; [lra|].
  intros H. injection H as Hx _ _. lra.
Qed.

(** C5, amended.  In INSPECT mode the focused photo aims at the fixed point
    (0, 0, 15) of the scene group and grows to the scale (6, 6, 1), while
    the other photos go to (2, 2, 1); every foliage particle and every
    photo that is not focused aims at twice its scatter position; a ribbon
    particle aims at its scatter position moved vertically by
    sin (time + phase), as in SCATTER mode.  All these points are points
    of the scene group: the group keeps in INSPECT mode the rotation it
    has, and a frame in TREE mode turns it by delta * 0.1 about the
    vertical axis, so where the point (0, 0, 15) lies for the camera
    depends on the rotation the group has when INSPECT is entered. *)
Theorem inspect_targets (time : R) (f : Foliage.Particle) (rb : Ribbons.Particle)
    (id : nat) (url : string) (treePos initialPos : R * R * R)
    (handPos : Point2) (delta : R) (rot : Experience.Rotation) :
  let focusedPhoto := SinglePhoto.mkProps id url treePos initialPos INSPECT true in
  let otherPhoto := SinglePhoto.mkProps id url treePos initialPos INSPECT false in
  (SinglePhoto.target focusedPhoto time = Vector3.mk 0 0 15
   /\ SinglePhoto.targetScale focusedPhoto = Vector3.mk 6 6 1
   /\ SinglePhoto.targetScale otherPhoto = Vector3.mk 2 2 1)
  /\ Foliage.target INSPECT time f
     = Vector3.multiplyScalar (Foliage.initialPos f) 2
  /\ SinglePhoto.target otherPhoto time
     = Vector3.multiplyScalar (Vector3.ofArray initialPos) 2
  /\ Ribbons.target INSPECT time rb = Ribbons.target SCATTER time rb
  /\ Ribbons.target INSPECT time rb
     = Vector3.add (Ribbons.initialPos rb)
         (Vector3.mk 0 (sin (time + Ribbons.phase rb)) 0)
  /\ Experience.useFrame true INSPECT handPos delta rot = rot
  /\ Experience.rotY (Experience.useFrame true TREE handPos delta rot)
     = Experience.rotY rot + delta * 0.1.
Proof.
  destruct treePos as [[t0 t1] t2], initialPos as [[i0 i1] i2].
  cbv zeta. unfold SinglePhoto.target, SinglePhoto.targetScale.
  cbn [SinglePhoto.mode SinglePhoto.isActive SinglePhoto.treePos
       SinglePhoto.initialPos AppMode_eqb andb Vector3.ofArray].
  repeat match goal with |- _ /\ _ => split end; try reflexivity.
  destruct rb as [ip tp cp c ph a r y tl]; destruct ip as [x0 y0 z0].
  unfold Ribbons.target, Vector3.add.
  cbn [Ribbons.initialPos Ribbons.phase Vector3.x Vector3.y Vector3.z].
  f_equal; ring.
Qed.

(* ------------------------------------------------------------------ *)
(** ** Damped approach *)
(* ------------------------------------------------------------------ *)

Section Lerp.

Variables (target : Vector3.t) (alpha : R).

Lemma sumsq_nonneg (a b c : R) : 0 <= a * a + b * b + c * c.
Proof. nra. Qed.

Lemma sqrt_scaled (k a b c : R) :
  sqrt (k * a * (k * a) + k * b * (k * b) + k * c * (k * c))
  = Rabs k * sqrt (a * a + b * b + c * c).
Proof.
  replace (k * a * (k * a) + k * b * (k * b) + k * c * (k * c))
    with (Rsqr k * (a * a + b * b + c * c)) by (unfold Rsqr; ring).
  rewrite sqrt_mult_alt by apply Rle_0_sqr.
  rewrite sqrt_Rsqr_abs. reflexivity.
Qed.

Lemma distanceTo_lerp (cur : Vector3.t) :
  Vector3.distanceTo (Vector3.lerp cur target alpha) target
  = Rabs (1 - alpha) * Vector3.distanceTo cur target.
Proof.
  destruct cur as [x y z], target as [tx ty tz].
  unfold Vector3.distanceTo, Vector3.lerp.
  cbn [Vector3.x Vector3.y Vector3.z].
  rewrite <- sqrt_scaled. f_equal. ring.
Qed.

Lemma distanceTo_moved (cur : Vector3.t) :
  Vector3.distanceTo cur (Vector3.lerp cur target alpha)
  = Rabs alpha * Vector3.distanceTo cur target.
Proof.
  destruct cur as [x y z], target as [tx ty tz].
  unfold Vector3.distanceTo, Vector3.lerp.
  cbn [Vector3.x Vector3.y Vector3.z].
  rewrite <- sqrt_scaled. f_equal. ring.
Qed.

Lemma distanceTo_approach (n : nat) (cur : Vector3.t) :
  Vector3.distanceTo (Vector3.approach target alpha n cur) target
  = Rabs (1 - alpha) ^ n * Vector3.distanceTo cur target.
Proof.
  induction n as [|n IH]; unfold Vector3.approach in *; simpl.
  - ring.
  - rewrite distanceTo_lerp, IH. ring.
Qed.

Lemma distanceTo_pos (cur : Vector3.t) :
  cur <> target -> 0 < Vector3.distanceTo cur target.
Proof.
  destruct cur as [x y z], target as [tx ty tz]. intros Hne.
  unfold Vector3.distanceTo. cbn [Vector3.x Vector3.y Vector3.z].
  apply sqrt_lt_R0.
  pose proof (Rle_0_sqr (x - tx)) as Sx.
  pose proof (Rle_0_sqr (y - ty)) as Sy.
  pose proof (Rle_0_sqr (z - tz)) as Sz.
  assert (Hpos : forall a b : R, a <> b -> 0 < Rsqr (a - b)).
  { intros a b Hab. apply Rsqr_pos_lt. lra. }
  unfold Rsqr in *.
  destruct (Req_dec x tx) as [Hx|Hx]; [|specialize (Hpos _ _ Hx); lra].
  destruct (Req_dec y ty) as [Hy|Hy]; [|specialize (Hpos _ _ Hy); lra].
  destruct (Req_dec z tz) as [Hz|Hz]; [|specialize (Hpos _ _ Hz); lra].
  subst. contradiction.
Qed.

End Lerp.

Lemma distanceTo_on_x_axis (a b : R) :
  Vector3.distanceTo (Vector3.mk a 0 0) (Vector3.mk b 0 0) = Rabs (a - b).
Proof.
  unfold Vector3.distanceTo. cbn [Vector3.x Vector3.y Vector3.z].
  replace ((a - b) * (a - b) + (0 - 0) * (0 - 0) + (0 - 0) * (0 - 0))
    with (Rsqr (a - b)) by (unfold Rsqr; ring).
  apply sqrt_Rsqr_abs.
Qed.

(** C7, as the specification words it, fails.  A frame that comes one
    second after the last one (rate 3) throws a particle at distance 1
    from its target past the target, to distance 2; and two seconds of
    frames at 60 per second leave a particle that started 50 away more
    than 0.1 away. *)
Lemma long_frame_overshoots :
  let target := Vector3.mk 1 0 0 in
  let cur := Vector3.mk 0 0 0 in
  let next := Vector3.lerp cur target (1 * 3) in
  next = Vector3.mk 3 0 0
  /\ Vector3.distanceTo cur target = 1
  /\ Vector3.distanceTo next target = 2
  /\ ~ Vector3.distanceTo next target < Vector3.distanceTo cur target
  /\ ~ Vector3.distanceTo
         (Vector3.approach Vector3.zero (1 / 60 * 3) 120 (Vector3.mk 50 0 0))
         Vector3.zero < 0.01.
Proof.
  cbv zeta.
  assert (Hn : Vector3.lerp (Vector3.mk 0 0 0) (Vector3.mk 1 0 0) (1 * 3)
               = Vector3.mk 3 0 0).
  { unfold Vector3.lerp. cbn [Vector3.x Vector3.y Vector3.z]. f_equal; ring. }
  rewrite Hn, !distanceTo_on_x_axis.
  replace (0 - 1) with (- (1)) by ring. rewrite Rabs_Ropp, Rabs_R1.
  replace (3 - 1) with 2 by ring. rewrite (Rabs_pos_eq 2) by lra.
  repeat split; try lra.
  rewrite distanceTo_approach. unfold Vector3.zero.
  rewrite distanceTo_on_x_axis, !Rabs_pos_eq by lra. lra.
Qed.

(** In exact arithmetic: when 0 < delta * rate < 1 and the particle is not
    on its target, one frame multiplies the distance to the target by
    1 - delta * rate, and the new position lies on the segment from the
    old one to the target; after n frames the distance is
    (1 - delta * rate)^n times the first one. *)
Lemma exact_approach_contracts (rate delta : R) (target cur : Vector3.t) :
  0 < delta * rate < 1 ->
  cur <> target ->
  let alpha := delta * rate in
  let next := Vector3.lerp cur target alpha in
  (Vector3.distanceTo next target = (1 - alpha) * Vector3.distanceTo cur target
   /\ 0 < Vector3.distanceTo next target < Vector3.distanceTo cur target
   /\ Vector3.distanceTo cur next + Vector3.distanceTo next target
      = Vector3.distanceTo cur target)
  /\ (forall n,
        Vector3.distanceTo (Vector3.approach target alpha n cur) target
        = (1 - alpha) ^ n * Vector3.distanceTo cur target)
  /\ (rate = 3 -> delta = 1 / 60 ->
        Vector3.distanceTo (Vector3.approach target alpha 120 cur) target
        < 0.00213 * Vector3.distanceTo cur target
        /\ (Vector3.distanceTo cur target <= 4.5 ->
            Vector3.distanceTo (Vector3.approach target alpha 120 cur) target
            < 0.01)).
Proof.
  intros Ha Hne. cbv zeta.
  pose proof (distanceTo_pos target cur Hne) as Hd.
  assert (H1 : Rabs (1 - delta * rate) = 1 - delta * rate)
    by (apply Rabs_pos_eq; lra).
  assert (H2 : Rabs (delta * rate) = delta * rate)
    by (apply Rabs_pos_eq; lra).
  split; [|split].
  - rewrite distanceTo_lerp, distanceTo_moved, H1, H2.
    repeat split; try nra.
  - intros n. rewrite distanceTo_approach, H1. reflexivity.
  - intros Hr Hdelta. rewrite distanceTo_approach, H1. subst rate delta.
    assert (Hp : (1 - 1 / 60 * 3) ^ 120 < 0.00213) by lra.
    assert (Hp0 : 0 < (1 - 1 / 60 * 3) ^ 120) by (apply pow_lt; lra).
    split; [|intros Hle]; nra.
Qed.

(* ------------------------------------------------------------------ *)
(** ** Damped approach with rounding *)
(* ------------------------------------------------------------------ *)

Section RoundedCoordinate.

Variables (rnd : R -> R) (u eta alpha : R).
Hypothesis rounding : Rounded.accurate rnd u eta.
Hypothesis u_nonneg : 0 <= u.
Hypothesis eta_nonneg : 0 <= eta.
Hypothesis alpha_unit : 0 <= alpha <= 1.

Lemma lerp1_bounds (x t : R) :
  Rabs (Rounded.lerp1 rnd x t alpha - t)
  <= Rounded.factor alpha u * Rabs (x - t) + u * Rabs t
     + ((1 + u) * (1 + alpha + u * alpha) + 1) * eta
  /\ Rabs (Rounded.lerp1 rnd x t alpha - (x + (t - x) * alpha))
     <= (Rounded.factor alpha u - (1 - alpha)) * Rabs (x - t) + u * Rabs t
        + ((1 + u) * (1 + alpha + u * alpha) + 1) * eta.
Proof.
  unfold Rounded.lerp1, Rounded.factor.
  set (d := rnd (t - x)). set (m := rnd (d * alpha)). set (s := x + m).
  pose proof (rounding (t - x)) as H1. fold d in H1.
  pose proof (rounding (d * alpha)) as H2. fold m in H2.
  pose proof (rounding s) as H3.
  rewrite (Rabs_minus_sym t x) in H1.
  set (A := Rabs (x - t)) in *.
  assert (HA : 0 <= A) by apply Rabs_pos.
  set (a1 := Rabs (d - (t - x))) in *.
  set (a2 := Rabs (m - d * alpha)) in *.
  set (a3 := Rabs (rnd s - s)) in *.
  assert (Ha1 : 0 <= a1) by apply Rabs_pos.
  assert (Ha2 : 0 <= a2) by apply Rabs_pos.
  assert (Ha3 : 0 <= a3) by apply Rabs_pos.
  assert (Hd : Rabs d <= A + a1).
  { replace d with ((t - x) + (d - (t - x))) by ring.
    eapply Rle_trans; [apply Rabs_triang|].
    rewrite (Rabs_minus_sym t x). fold A.
    replace (t - x + (d - (t - x)) - (t - x)) with (d - (t - x)) by ring.
    fold a1. lra. }
  assert (Hda : Rabs (d * alpha) = Rabs d * alpha).
  { rewrite Rabs_mult, (Rabs_pos_eq alpha); lra. }
  rewrite Hda in H2.
  assert (Hst : Rabs (s - t) <= (1 - alpha) * A + alpha * a1 + a2).
  { replace (s - t)
      with ((x - t) * (1 - alpha) + (alpha * (d - (t - x)) + (m - d * alpha)))
      by (unfold s; ring).
    eapply Rle_trans; [apply Rabs_triang|].
    eapply Rle_trans; [apply Rplus_le_compat_l, Rabs_triang|].
    rewrite !Rabs_mult, (Rabs_pos_eq (1 - alpha)), (Rabs_pos_eq alpha) by lra.
    fold A a1 a2. lra. }
  assert (Hs : Rabs s <= Rabs t + ((1 - alpha) * A + alpha * a1 + a2)).
  { replace s with (t + (s - t)) at 1 by ring.
    eapply Rle_trans; [apply Rabs_triang|]. lra. }
  pose proof (Rabs_pos t) as Ht. pose proof (Rabs_pos d) as Hd0.
  pose proof (Rabs_pos s) as Hs0.
  set (T := Rabs t) in *. set (D := Rabs d) in *. set (S' := Rabs s) in *.
  assert (B1 : alpha * a1 <= alpha * (u * A + eta))
    by (apply Rmult_le_compat_l; lra).
  assert (HD : D <= A + u * A + eta) by lra.
  assert (Hua : 0 <= u * alpha) by (apply Rmult_le_pos; lra).
  assert (HuD : u * alpha * D <= u * alpha * (A + u * A + eta))
    by (apply Rmult_le_compat_l; assumption).
  assert (B2 : a2 <= u * alpha * (A + u * A + eta) + eta) by lra.
  assert (HS : S' <= T + ((1 - alpha) * A + alpha * (u * A + eta)
                          + (u * alpha * (A + u * A + eta) + eta))) by lra.
  assert (HuS : u * S' <= u * (T + ((1 - alpha) * A + alpha * (u * A + eta)
                                    + (u * alpha * (A + u * A + eta) + eta))))
    by (apply Rmult_le_compat_l; assumption).
  assert (B3 : a3 <= u * (T + ((1 - alpha) * A + alpha * (u * A + eta)
                               + (u * alpha * (A + u * A + eta) + eta))) + eta)
    by lra.
  split.
  - replace (rnd s - t) with ((s - t) + (rnd s - s)) by ring.
    eapply Rle_trans; [apply Rabs_triang|]. fold a3.
    apply Rle_trans
      with ((1 - alpha) * A + alpha * (u * A + eta)
            + (u * alpha * (A + u * A + eta) + eta)
            + (u * (T + ((1 - alpha) * A + alpha * (u * A + eta)
                         + (u * alpha * (A + u * A + eta) + eta))) + eta)).
    + lra.
    + apply Req_le. ring.
  - replace (rnd s - (x + (t - x) * alpha))
      with (alpha * (d - (t - x)) + (m - d * alpha) + (rnd s - s))
      by (unfold s; ring).
    eapply Rle_trans; [apply Rabs_triang|].
    eapply Rle_trans; [apply Rplus_le_compat_r, Rabs_triang|].
    rewrite Rabs_mult, (Rabs_pos_eq alpha) by lra. fold a1 a2 a3.
    apply Rle_trans
      with (alpha * (u * A + eta)
            + (u * alpha * (A + u * A + eta) + eta)
            + (u * (T + ((1 - alpha) * A + alpha * (u * A + eta)
                         + (u * alpha * (A + u * A + eta) + eta))) + eta)).
    + lra.
    + apply Req_le. ring.
Qed.

End RoundedCoordinate.

Section Norm.

Lemma norm3_nonneg (a b c : R) : 0 <= Rounded.norm3 a b c.
Proof. apply sqrt_pos. Qed.

Lemma norm3_sqr (a b c : R) :
  Rounded.norm3 a b c * Rounded.norm3 a b c = a * a + b * b + c * c.
Proof. apply sqrt_sqrt, sumsq_nonneg. Qed.

Lemma sqr_le_abs (a a' : R) : Rabs a <= a' -> a * a <= a' * a'.
Proof.
  intros H. pose proof (Rabs_pos a) as H0.
  replace (a * a) with (Rabs a * Rabs a)
    by (rewrite <- Rabs_mult; apply Rabs_pos_eq; nra).
  nra.
Qed.

Lemma norm3_mono (a b c a' b' c' : R) :
  Rabs a <= a' -> Rabs b <= b' -> Rabs c <= c' ->
  Rounded.norm3 a b c <= Rounded.norm3 a' b' c'.
Proof.
  intros Ha Hb Hc. unfold Rounded.norm3. apply sqrt_le_1_alt.
  pose proof (sqr_le_abs a a' Ha). pose proof (sqr_le_abs b b' Hb).
  pose proof (sqr_le_abs c c' Hc). lra.
Qed.

Lemma cauchy_schwarz3 (a1 a2 a3 b1 b2 b3 : R) :
  a1 * b1 + a2 * b2 + a3 * b3
  <= Rounded.norm3 a1 a2 a3 * Rounded.norm3 b1 b2 b3.
Proof.
  set (P := a1 * b1 + a2 * b2 + a3 * b3).
  pose proof (norm3_nonneg a1 a2 a3) as HA.
  pose proof (norm3_nonneg b1 b2 b3) as HB.
  destruct (Rle_lt_dec P 0) as [Hn|Hp]; [nra|].
  assert (HP : P * P <= (a1 * a1 + a2 * a2 + a3 * a3)
                        * (b1 * b1 + b2 * b2 + b3 * b3)).
  { replace ((a1 * a1 + a2 * a2 + a3 * a3) * (b1 * b1 + b2 * b2 + b3 * b3))
      with (P * P + ((a1 * b2 - a2 * b1) * (a1 * b2 - a2 * b1)
                     + (a1 * b3 - a3 * b1) * (a1 * b3 - a3 * b1)
                     + (a2 * b3 - a3 * b2) * (a2 * b3 - a3 * b2)))
      by (unfold P; ring).
    pose proof (sumsq_nonneg (a1 * b2 - a2 * b1) (a1 * b3 - a3 * b1)
                  (a2 * b3 - a3 * b2)). lra. }
  rewrite <- (sqrt_square P) by lra.
  unfold Rounded.norm3. rewrite <- sqrt_mult_alt by apply sumsq_nonneg.
  apply sqrt_le_1_alt, HP.
Qed.

Lemma minkowski3 (a1 a2 a3 b1 b2 b3 : R) :
  Rounded.norm3 (a1 + b1) (a2 + b2) (a3 + b3)
  <= Rounded.norm3 a1 a2 a3 + Rounded.norm3 b1 b2 b3.
Proof.
  pose proof (norm3_nonneg a1 a2 a3) as HA.
  pose proof (norm3_nonneg b1 b2 b3) as HB.
  pose proof (norm3_sqr a1 a2 a3) as SA.
  pose proof (norm3_sqr b1 b2 b3) as SB.
  pose proof (cauchy_schwarz3 a1 a2 a3 b1 b2 b3) as CS.
  rewrite <- (sqrt_square (Rounded.norm3 a1 a2 a3 + Rounded.norm3 b1 b2 b3))
    by lra.
  unfold Rounded.norm3 at 1. apply sqrt_le_1_alt. nra.
Qed.

Lemma norm3_scale (k a b c : R) :
  Rounded.norm3 (k * a) (k * b) (k * c) = Rabs k * Rounded.norm3 a b c.
Proof. unfold Rounded.norm3. apply sqrt_scaled. Qed.

Lemma norm3_const (c : R) :
  0 <= c -> Rounded.norm3 c c c = sqrt 3 * c.
Proof.
  intros Hc. unfold Rounded.norm3.
  replace (c * c + c * c + c * c) with (3 * (c * c)) by ring.
  rewrite sqrt_mult_alt by lra. rewrite sqrt_square by exact Hc. reflexivity.
Qed.

Lemma norm3_abs (a b c : R) :
  Rounded.norm3 (Rabs a) (Rabs b) (Rabs c) = Rounded.norm3 a b c.
Proof.
  assert (H : forall z, Rabs z * Rabs z = z * z).
  { intros z. rewrite <- Rabs_mult. apply Rabs_pos_eq. nra. }
  unfold Rounded.norm3. rewrite !H. reflexivity.
Qed.

Lemma distanceTo_norm3 (v w : Vector3.t) :
  Vector3.distanceTo v w
  = Rounded.norm3 (Vector3.x v - Vector3.x w) (Vector3.y v - Vector3.y w)
                  (Vector3.z v - Vector3.z w).
Proof. reflexivity. Qed.

Lemma norm3_bound (f g a b c ta tb tc e : R) (a' b' c' : R) :
  0 <= f -> 0 <= g -> 0 <= e ->
  Rabs a' <= f * Rabs a + g * Rabs ta + e ->
  Rabs b' <= f * Rabs b + g * Rabs tb + e ->
  Rabs c' <= f * Rabs c + g * Rabs tc + e ->
  Rounded.norm3 a' b' c'
  <= f * Rounded.norm3 a b c + g * Rounded.norm3 ta tb tc + sqrt 3 * e.
Proof.
  intros Hf Hg He Ha Hb Hc.
  eapply Rle_trans; [apply (norm3_mono _ _ _ _ _ _ Ha Hb Hc)|].
  replace (f * Rabs a + g * Rabs ta + e)
    with (f * Rabs a + (g * Rabs ta + e)) by ring.
  replace (f * Rabs b + g * Rabs tb + e)
    with (f * Rabs b + (g * Rabs tb + e)) by ring.
  replace (f * Rabs c + g * Rabs tc + e)
    with (f * Rabs c + (g * Rabs tc + e)) by ring.
  eapply Rle_trans; [apply minkowski3|].
  pose proof (minkowski3 (g * Rabs ta) (g * Rabs tb) (g * Rabs tc) e e e) as M.
  rewrite !norm3_scale, !norm3_abs, norm3_const in * by exact He.
  rewrite (Rabs_pos_eq g) in M by assumption.
  rewrite (Rabs_pos_eq f) by assumption. lra.
Qed.

End Norm.

Section RoundedVector.

Variables (rnd : R -> R) (u eta alpha : R).
Hypothesis rounding : Rounded.accurate rnd u eta.
Hypothesis u_nonneg : 0 <= u.
Hypothesis eta_nonneg : 0 <= eta.
Hypothesis alpha_unit : 0 <= alpha <= 1.

Variable target : Vector3.t.

Lemma factor_nonneg : 0 <= Rounded.factor alpha u.
Proof. unfold Rounded.factor. apply Rmult_le_pos; [lra|nra]. Qed.

Lemma factor_above : 0 <= Rounded.factor alpha u - (1 - alpha).
Proof.
  unfold Rounded.factor.
  replace ((1 + u) * (1 - alpha * (1 - 2 * u - u * u)) - (1 - alpha))
    with (u * (1 - alpha) + (1 + u) * (alpha * u * (2 + u))) by ring.
  assert (0 <= alpha * u) by nra.
  assert (0 <= alpha * u * (2 + u)) by nra. nra.
Qed.

Lemma slack_nonneg : 0 <= Rounded.slack alpha u eta target.
Proof.
  unfold Rounded.slack.
  pose proof (sqrt_pos 3). pose proof (sqrt_pos
    ((Vector3.x target - Vector3.x Vector3.zero)
     * (Vector3.x target - Vector3.x Vector3.zero)
     + (Vector3.y target - Vector3.y Vector3.zero)
       * (Vector3.y target - Vector3.y Vector3.zero)
     + (Vector3.z target - Vector3.z Vector3.zero)
       * (Vector3.z target - Vector3.z Vector3.zero))) as Ht.
  fold (Vector3.distanceTo target Vector3.zero) in Ht.
  assert (0 <= (1 + u) * (1 + alpha + u * alpha) + 1) by nra.
  assert (0 <= ((1 + u) * (1 + alpha + u * alpha) + 1) * eta) by nra.
  nra.
Qed.

Lemma target_norm :
  Vector3.distanceTo target Vector3.zero
  = Rounded.norm3 (Vector3.x target) (Vector3.y target) (Vector3.z target).
Proof.
  rewrite distanceTo_norm3. cbn [Vector3.zero Vector3.x Vector3.y Vector3.z].
  rewrite !Rminus_0_r. reflexivity.
Qed.

Lemma rounded_lerp_distance (cur : Vector3.t) :
  Vector3.distanceTo (Rounded.lerp rnd cur target alpha) target
  <= Rounded.factor alpha u * Vector3.distanceTo cur target
     + Rounded.slack alpha u eta target.
Proof.
  unfold Rounded.slack. rewrite target_norm, !distanceTo_norm3.
  cbn [Rounded.lerp Vector3.x Vector3.y Vector3.z].
  rewrite <- Rplus_assoc.
  apply norm3_bound; try apply factor_nonneg; try exact u_nonneg;
    try (assert (0 <= (1 + u) * (1 + alpha + u * alpha) + 1) by nra; nra);
    apply lerp1_bounds; assumption.
Qed.

Lemma rounded_lerp_near_exact (cur : Vector3.t) :
  Vector3.distanceTo (Rounded.lerp rnd cur target alpha)
    (Vector3.lerp cur target alpha)
  <= (Rounded.factor alpha u - (1 - alpha)) * Vector3.distanceTo cur target
     + Rounded.slack alpha u eta target.
Proof.
  unfold Rounded.slack. rewrite target_norm, !distanceTo_norm3.
  cbn [Rounded.lerp Vector3.lerp Vector3.x Vector3.y Vector3.z].
  rewrite <- Rplus_assoc.
  apply norm3_bound; try apply factor_above; try exact u_nonneg;
    try (assert (0 <= (1 + u) * (1 + alpha + u * alpha) + 1) by nra; nra);
    apply lerp1_bounds; assumption.
Qed.

Lemma rounded_approach_distance (n : nat) (cur : Vector3.t) :
  Rounded.factor alpha u < 1 ->
  Vector3.distanceTo (Rounded.approach rnd target alpha n cur) target
  <= Rounded.factor alpha u ^ n * Vector3.distanceTo cur target
     + Rounded.slack alpha u eta target / (1 - Rounded.factor alpha u).
Proof.
  intros Hf. pose proof factor_nonneg as Hf0. pose proof slack_nonneg as He.
  set (f := Rounded.factor alpha u) in *.
  set (E := Rounded.slack alpha u eta target) in *.
  assert (HG : 0 <= E / (1 - f)).
  { apply Rmult_le_pos; [exact He|]. left. apply Rinv_0_lt_compat. lra. }
  assert (HE : E = E / (1 - f) * (1 - f)) by (field; lra).
  induction n as [|n IH].
  - change (Rounded.approach rnd target alpha 0 cur) with cur.
    rewrite pow_O. lra.
  - change (Rounded.approach rnd target alpha (S n) cur)
      with (Rounded.lerp rnd (Rounded.approach rnd target alpha n cur)
              target alpha).
    eapply Rle_trans; [apply rounded_lerp_distance|]. fold f E.
    set (D := Vector3.distanceTo (Rounded.approach rnd target alpha n cur)
                target) in *.
    set (G := E / (1 - f)) in *.
    assert (f * D <= f * (f ^ n * Vector3.distanceTo cur target + G))
      by (apply Rmult_le_compat_l; assumption).
    rewrite <- tech_pow_Rmult.
    apply Rle_trans
      with (f * (f ^ n * Vector3.distanceTo cur target + G) + G * (1 - f));
      [rewrite <- HE; lra | apply Req_le; ring].
Qed.

End RoundedVector.

Lemma u64_small : 0 < Rounded.u64 <= / 1000000000000000.
Proof. unfold Rounded.u64. lra. Qed.

Lemma eta64_pos : 0 < Rounded.eta64.
Proof.
  unfold Rounded.eta64. apply Rinv_0_lt_compat, pow_lt. lra.
Qed.

Lemma inflate_accurate (u eta : R) :
  0 <= u -> 0 <= eta -> Rounded.accurate (Rounded.inflate u) u eta.
Proof.
  intros Hu He y. unfold Rounded.inflate.
  replace (y * (1 + u) - y) with (u * y) by ring.
  rewrite Rabs_mult, (Rabs_pos_eq u) by exact Hu. lra.
Qed.

Lemma factor_at_60fps (alpha u : R) :
  0 <= u <= Rounded.u64 -> 0.0499999 <= alpha <= 1 ->
  0 <= Rounded.factor alpha u <= 0.9500002.
Proof.
  intros [Hu0 Hu] [Ha0 Ha1]. pose proof u64_small as [_ Hs].
  assert (Hu' : u <= / 1000000000000000) by lra.
  unfold Rounded.factor.
  set (w := 1 - 2 * u - u * u).
  assert (Hw : 1 - 3 * / 1000000000000000 <= w <= 1) by (unfold w; nra).
  assert (Haw : 0.0499999 * (1 - 3 * / 1000000000000000) <= alpha * w) by nra.
  assert (Haw1 : alpha * w <= 1) by nra.
  split; [apply Rmult_le_pos; lra|]. nra.
Qed.

(** In binary64 the approach of one coordinate from 0 to 1 at 60 frames
    per second and rate 3 stops after 669 frames, short of the target: a
    further frame leaves the position where it is. *)
Lemma double_approach_stalls :
  Double.frames 670 0 1 Double.alpha60 = Double.frames 669 0 1 Double.alpha60
  /\ PrimFloat.ltb (Double.frames 669 0 1 Double.alpha60) 1 = true
  /\ PrimFloat.ltb (Double.frames 668 0 1 Double.alpha60)
       (Double.frames 669 0 1 Double.alpha60) = true.
Proof. repeat split; vm_compute; reflexivity. Qed.

(** C7, amended.  Let each of the three operations of
    [x += (t - x) * alpha] be rounded with a relative error of at most u
    (2^-53 in binary64) and an absolute error of at most eta on underflow,
    and let 0 < alpha <= 1 for alpha = delta * rate.  Then one frame
    brings the distance d to the target to at most f * d + E, where
    f = (1 + u) (1 - alpha (1 - 2u - u^2)) and E = u |target| + sqrt 3 k eta
    is of the size of the rounding errors: the distance strictly decreases
    in every frame in which it exceeds E / (1 - f), and close to the
    target the position may stop short of it.  The new position is within
    (f - (1 - alpha)) d + E of the point of the segment from the old
    position to the target that exact arithmetic gives, whose distance to
    the target is (1 - alpha) d.  After n frames the distance is at most
    f^n d + E / (1 - f); for alpha at least 0.0499999 (rate 3 at 60 frames
    per second) and u at most 2^-53, after 120 frames it is at most
    0.00213 d + 21 E.  Without rounding (u = 0, eta = 0) f is 1 - alpha
    and E is 0. *)
Theorem damped_approach_with_rounding (rnd : R -> R) (u eta alpha : R)
    (target cur : Vector3.t) :
  Rounded.accurate rnd u eta -> 0 <= u -> 0 <= eta -> 0 < alpha <= 1 ->
  let f := Rounded.factor alpha u in
  let E := Rounded.slack alpha u eta target in
  let next := Rounded.lerp rnd cur target alpha in
  let exact := Vector3.lerp cur target alpha in
  (Vector3.distanceTo next target <= f * Vector3.distanceTo cur target + E
   /\ (E < (1 - f) * Vector3.distanceTo cur target ->
       Vector3.distanceTo next target < Vector3.distanceTo cur target))
  /\ (Vector3.distanceTo next exact
      <= (f - (1 - alpha)) * Vector3.distanceTo cur target + E
      /\ Vector3.distanceTo exact target
         = (1 - alpha) * Vector3.distanceTo cur target
      /\ Vector3.distanceTo cur exact + Vector3.distanceTo exact target
         = Vector3.distanceTo cur target)
  /\ (f < 1 -> forall n,
        Vector3.distanceTo (Rounded.approach rnd target alpha n cur) target
        <= f ^ n * Vector3.distanceTo cur target + E / (1 - f))
  /\ (u <= Rounded.u64 -> 0.0499999 <= alpha ->
        Vector3.distanceTo (Rounded.approach rnd target alpha 120 cur) target
        <= 0.00213 * Vector3.distanceTo cur target + 21 * E)
  /\ (u = 0 -> eta = 0 -> f = 1 - alpha /\ E = 0).
Proof.
  intros Hr Hu He [Ha0 Ha1]. cbv zeta.
  assert (Ha : 0 <= alpha <= 1) by lra.
  pose proof (rounded_lerp_distance rnd u eta alpha Hr Hu He Ha target cur) as H1.
  pose proof (rounded_lerp_near_exact rnd u eta alpha Hr Hu He Ha target cur) as H2.
  pose proof (slack_nonneg u eta alpha Hu He Ha target) as HE.
  assert (Hd : 0 <= Vector3.distanceTo cur target) by apply sqrt_pos.
  assert (A1 : Rabs (1 - alpha) = 1 - alpha) by (apply Rabs_pos_eq; lra).
  assert (A2 : Rabs alpha = alpha) by (apply Rabs_pos_eq; lra).
  repeat match goal with |- _ /\ _ => split end.
  - exact H1.
  - intros Hlt. lra.
  - exact H2.
  - rewrite distanceTo_lerp, A1. reflexivity.
  - rewrite distanceTo_lerp, distanceTo_moved, A1, A2. ring.
  - intros Hf n. apply rounded_approach_distance; assumption.
  - intros Hu64 Ha60.
    destruct (factor_at_60fps alpha u (conj Hu Hu64) (conj Ha60 Ha1)) as [F0 F1].
    assert (Hf : Rounded.factor alpha u < 1) by lra.
    pose proof (rounded_approach_distance rnd u eta alpha Hr Hu He Ha target
                  120 cur Hf) as H120.
    set (f := Rounded.factor alpha u) in *.
    set (E := Rounded.slack alpha u eta target) in *.
    set (D0 := Vector3.distanceTo cur target) in *.
    assert (P : f ^ 120 <= 0.9500002 ^ 120) by (apply pow_incr; lra).
    assert (P' : 0.9500002 ^ 120 < 0.00213) by lra.
    assert (Q : / (1 - f) <= / 0.0499998)
      by (apply Rinv_le_contravar; lra).
    assert (Q' : E / (1 - f) <= 21 * E).
    { unfold Rdiv. assert (/ 0.0499998 < 21) by lra. nra. }
    assert (f ^ 120 * D0 <= 0.00213 * D0) by nra.
    lra.
  - intros -> ->. split.
    + unfold Rounded.factor. ring.
    + unfold Rounded.slack. ring.
Qed.

Lemma damped_approach_with_rounding_witness :
  Vector3.distanceTo
    (Rounded.lerp (Rounded.inflate Rounded.u64) (Vector3.mk 3 0 15)
       (Vector3.mk 0 0 15) 0.05)
    (Vector3.mk 0 0 15)
  <= Rounded.factor 0.05 Rounded.u64
     * Vector3.distanceTo (Vector3.mk 3 0 15) (Vector3.mk 0 0 15)
     + Rounded.slack 0.05 Rounded.u64 Rounded.eta64 (Vector3.mk 0 0 15).
Proof.
  assert (Hu : 0 <= Rounded.u64) by (pose proof u64_small; lra).
  assert (He : 0 <= Rounded.eta64) by (pose proof eta64_pos; lra).
  assert (Ha : 0 < 0.05 <= 1) by lra.
  exact (proj1 (proj1
    (damped_approach_with_rounding (Rounded.inflate Rounded.u64) Rounded.u64
       Rounded.eta64 0.05 (Vector3.mk 0 0 15) (Vector3.mk 3 0 15)
       (inflate_accurate Rounded.u64 Rounded.eta64 Hu He) Hu He Ha))).
Defined.

(* ------------------------------------------------------------------ *)
(** ** Tree placement *)
(* ------------------------------------------------------------------ *)

Section TreePlacement.

Variable s : Rand.Stream.

Lemma getTreeData_y (index total : R) :
  Vector3.y (pos (fst (getTreeData index total s)))
  = (index / total) * TREE_HEIGHT - TREE_HEIGHT / 2.
Proof. reflexivity. Qed.

Lemma getTreeData_radiusAtHeight (index total : R) :
  radiusAtHeight (fst (getTreeData index total s))
  = ((TREE_HEIGHT / 2)
     - ((index / total) * TREE_HEIGHT - TREE_HEIGHT / 2))
    * (TREE_RADIUS / TREE_HEIGHT).
Proof. reflexivity. Qed.

Lemma getTreeData_r (index total : R) :
  r (fst (getTreeData index total s))
  = radiusAtHeight (fst (getTreeData index total s)) * Math_pow (s 0%nat) 0.4.
Proof. reflexivity. Qed.

End TreePlacement.

Lemma Math_pow_pos (u e : R) : 0 < u -> 0 < Math_pow u e.
Proof.
  intros Hu. unfold Math_pow, Reqb.
  destruct (Req_dec_T u 0) as [H|H]; [lra|].
  unfold Rpower. apply exp_pos.
Qed.

(** C8, as the specification words it, fails: for total = 100 the index 0
    lies lower than the index 99 and has the larger radius, both for the
    radius of the cone at that height and for the distance from the axis
    drawn inside it (here with 0.5 for each random draw). *)
Lemma index_zero_is_not_apex :
  let td0 := fst (getTreeData 0 100 (Rand.const 0.5)) in
  let td99 := fst (getTreeData 99 100 (Rand.const 0.5)) in
  Vector3.y (pos td0) < Vector3.y (pos td99)
  /\ ~ radiusAtHeight td0 < radiusAtHeight td99
  /\ ~ r td0 < r td99.
Proof.
  cbv zeta.
  rewrite !getTreeData_r, !getTreeData_radiusAtHeight, !getTreeData_y.
  unfold TREE_HEIGHT, TREE_RADIUS, Rand.const.
  pose proof (Math_pow_pos 0.5 0.4 ltac:(lra)) as Hp.
  repeat split; try lra; nra.
Qed.

(** C8, amended.  For total = 100 the index 0 is the base of the tree: its
    height -9 is the lowest and its cone radius 7.5 the largest of all
    indices, whatever is drawn; the index 99 is the one nearest the apex,
    at height 8.82 with cone radius 0.075, so the radius at index 0 is
    strictly larger than the radius at index 99. *)
Theorem index_zero_is_base (s s' : Rand.Stream) (i : nat) :
  let td0 := fst (getTreeData 0 100 s) in
  let td99 := fst (getTreeData 99 100 s') in
  let tdi := fst (getTreeData (INR i) 100 s') in
  Vector3.y (pos td0) = -9
  /\ radiusAtHeight td0 = 7.5
  /\ Vector3.y (pos td99) = 8.82
  /\ radiusAtHeight td99 = 0.075
  /\ radiusAtHeight td99 < radiusAtHeight td0
  /\ Vector3.y (pos td0) <= Vector3.y (pos tdi)
  /\ radiusAtHeight tdi <= radiusAtHeight td0
  /\ ((i < 100)%nat ->
      Vector3.y (pos tdi) <= Vector3.y (pos td99)
      /\ radiusAtHeight td99 <= radiusAtHeight tdi).
Proof.
  cbv zeta.
  rewrite !getTreeData_radiusAtHeight, !getTreeData_y.
  unfold TREE_HEIGHT, TREE_RADIUS.
  pose proof (pos_INR i) as Hi.
  repeat match goal with |- _ /\ _ => split end; try lra.
  intros Hlt. assert (Hle : (i <= 99)%nat) by lia. apply le_INR in Hle.
  rewrite (INR_IZR_INZ 99) in Hle. cbn [Z.of_nat Pos.of_succ_nat Pos.succ] in Hle.
  split; lra.
Qed.

(* ------------------------------------------------------------------ *)
(** ** Prediction loop *)
(* ------------------------------------------------------------------ *)

Lemma Reqb_false (x y : R) : x <> y -> Reqb x y = false.
Proof. intros H. unfold Reqb. destruct (Req_dec_T x y); easy. Qed.

Lemma Reqb_refl (x : R) : Reqb x x = true.
Proof. unfold Reqb. destruct (Req_dec_T x x); easy. Qed.

Section Frames.

Variable l : Hand.Loop.
Variable currentTime : R.

(** The loop as it stands when the [try] block is entered. *)
Let l0 : Hand.Loop :=
  {| Hand.lastVideoTime := currentTime; Hand.emitted := Hand.emitted l;
     Hand.warnings := Hand.warnings l; Hand.requested := Hand.requested l |}.

Lemma predictWebcam_new_frame (d : Hand.Detection) :
  currentTime <> Hand.lastVideoTime l ->
  Hand.predictWebcam true currentTime d l
  = Hand.Ok (Hand.requestAnimationFrame
               (Hand.tryCatch (Hand.tryBody d l0) (fun _ => Hand.warn l0))).
Proof.
  intros H. unfold Hand.predictWebcam. cbn [negb].
  rewrite Reqb_false by exact H. reflexivity.
Qed.

Lemma predictWebcam_same_frame (d : Hand.Detection) :
  currentTime = Hand.lastVideoTime l ->
  Hand.predictWebcam true currentTime d l
  = Hand.Ok (Hand.requestAnimationFrame l).
Proof.
  intros H. unfold Hand.predictWebcam. cbn [negb].
  rewrite H, Reqb_refl. reflexivity.
Qed.

Lemma tryBody_emits (d : Hand.Detection) (k : Hand.Loop) :
  match Hand.tryBody d k with
  | Hand.Ok k' => exists st, k' = Hand.onGestureUpdate st k
  | Hand.Throw _ => True
  end.
Proof.
  unfold Hand.tryBody. destruct d as [|[|landmarks rest]]; cbn [Hand.detectForVideo Hand.bind].
  - exact I.
  - eexists; reflexivity.
  - destruct (Hand.at_ landmarks 0); cbn [Hand.bind]; [|exact I].
    destruct (Hand.at_ landmarks 9); cbn [Hand.bind]; [|exact I].
    destruct (Hand.detectGesture landmarks); cbn [Hand.bind]; [|exact I].
    eexists; reflexivity.
Qed.

Lemma tryCatch_requested (d : Hand.Detection) (k : Hand.Loop) :
  Hand.requested (Hand.tryCatch (Hand.tryBody d k) (fun _ => Hand.warn k))
  = Hand.requested k.
Proof.
  pose proof (tryBody_emits d k) as H.
  destruct (Hand.tryBody d k); cbn [Hand.tryCatch].
  - destruct H as [st ->]. reflexivity.
  - reflexivity.
Qed.

Lemma predictWebcam_returns (ready : bool) (d : Hand.Detection) :
  exists l', Hand.predictWebcam ready currentTime d l = Hand.Ok l'.
Proof.
  unfold Hand.predictWebcam. destruct ready; cbn [negb]; eexists; reflexivity.
Qed.

End Frames.

(** C9, as the specification words it, fails on a detector failure: on
    the first frame of a loop the detector throws, and nothing is handed
    to the gesture callback, where the claim wants the no-hand state. *)
Lemma detector_failure_emits_nothing :
  exists l',
    Hand.predictWebcam true 0 Hand.DetectorThrows Hand.start = Hand.Ok l'
    /\ Hand.emitted l' = []
    /\ Hand.emitted l' <> [Hand.noHand]
    /\ Hand.warnings l' = 1%nat.
Proof.
  eexists. split.
  - apply predictWebcam_new_frame. unfold Hand.start. cbn. lra.
  - cbn. repeat split. discriminate.
Qed.

(** C9, amended.  On a frame whose video time is new: when the detector
    finds no hand, exactly the state (not detected, NONE, (0.5, 0.5)) is
    handed to the gesture callback; when the detector throws, a warning is
    logged and nothing is handed to the callback, so the state handed over
    last stays in force.  In both cases the call returns and the next
    frame is requested; indeed no call of the loop ever throws, whatever
    the detector does. *)
Theorem frame_without_hand_or_with_failure (currentTime : R) (l : Hand.Loop) :
  currentTime <> Hand.lastVideoTime l ->
  Hand.predictWebcam true currentTime (Hand.Detected []) l
  = Hand.Ok {| Hand.lastVideoTime := currentTime;
               Hand.emitted := Hand.noHand :: Hand.emitted l;
               Hand.warnings := Hand.warnings l;
               Hand.requested := S (Hand.requested l) |}
  /\ Hand.noHand = mkHand false NONE (mkPoint2 0.5 0.5)
  /\ Hand.predictWebcam true currentTime Hand.DetectorThrows l
     = Hand.Ok {| Hand.lastVideoTime := currentTime;
                  Hand.emitted := Hand.emitted l;
                  Hand.warnings := S (Hand.warnings l);
                  Hand.requested := S (Hand.requested l) |}
  /\ (forall ready t d, exists l',
        Hand.predictWebcam ready t d l = Hand.Ok l'
        /\ (ready = true -> Hand.requested l' = S (Hand.requested l))).
Proof.
  intros Hnew. rewrite !predictWebcam_new_frame by exact Hnew.
  repeat match goal with |- _ /\ _ => split end; try reflexivity.
  intros ready t d. unfold Hand.predictWebcam.
  destruct ready; cbn [negb]; eexists; (split; [reflexivity|]).
  - intros _. cbn [Hand.requestAnimationFrame Hand.requested]. f_equal.
    destruct (negb (Reqb t (Hand.lastVideoTime l))); [|reflexivity].
    rewrite tryCatch_requested. reflexivity.
  - discriminate.
Qed.

Lemma frame_without_hand_or_with_failure_witness :
  Hand.predictWebcam true 0 (Hand.Detected []) Hand.start
  = Hand.Ok {| Hand.lastVideoTime := 0;
               Hand.emitted := [Hand.noHand];
               Hand.warnings := 0;
               Hand.requested := 1 |}.
Proof.
  assert (H : 0 <> Hand.lastVideoTime Hand.start) by (cbn; lra).
  exact (proj1 (frame_without_hand_or_with_failure 0 Hand.start H)).
Defined.

(* ------------------------------------------------------------------ *)
(** ** Scatter positions *)
(* ------------------------------------------------------------------ *)

Lemma getScatterPos_draws (s : Rand.Stream) :
  getScatterPos s
  = (((s 0%nat - 0.5) * 50, (s 1%nat - 0.5) * 40, (s 2%nat - 0.5) * 30), Rand.drop 3 s).
Proof. reflexivity. Qed.

Lemma photoProps_initialPos (mode : AppMode) (a : option nat) (total i : nat)
    (url : string) (s : Rand.Stream) :
  SinglePhoto.initialPos (fst (PhotoCollection.photoProps mode a total i url s))
  = ((s 1%nat - 0.5) * 50, (s 2%nat - 0.5) * 40, (s 3%nat - 0.5) * 30)
  /\ snd (PhotoCollection.photoProps mode a total i url s) = Rand.drop 4 s.
Proof. split; reflexivity. Qed.

Lemma renderPhotos_one (mode : AppMode) (a : option nat) (url : string)
    (s : Rand.Stream) :
  map SinglePhoto.initialPos (fst (PhotoCollection.renderPhotos mode [url] a s))
  = [((s 1%nat - 0.5) * 50, (s 2%nat - 0.5) * 40, (s 3%nat - 0.5) * 30)]
  /\ snd (PhotoCollection.renderPhotos mode [url] a s) = Rand.drop 4 s.
Proof. split; reflexivity. Qed.

Section Memo.

Variables (A : Type) (count : nat) (ps : A) (compute : Rand.M A).

Lemma useMemo_hit (s : Rand.Stream) :
  useMemo (Some (count, ps)) count compute s = (ps, s).
Proof. unfold useMemo. rewrite Nat.eqb_refl. reflexivity. Qed.

End Memo.

(** Foliage and ribbons draw their scatter positions inside [useMemo]: a
    later render with the same count returns the particles it is given
    and draws nothing, and a frame leaves every scatter position as it
    is. *)
Lemma foliage_scatter_fixed (dark mid lite : Color.t) (count : nat)
    (ps : list Foliage.Particle) (s : Rand.Stream)
    (mode : AppMode) (time delta : R) :
  Foliage.render dark mid lite (Some (count, ps)) count s = (Some (count, ps), s)
  /\ map Foliage.initialPos (Foliage.useFrame mode time delta ps)
     = map Foliage.initialPos ps.
Proof.
  split.
  - unfold Foliage.render, Rand.bind. rewrite useMemo_hit. reflexivity.
  - unfold Foliage.useFrame. rewrite map_map. reflexivity.
Qed.

Lemma ribbons_scatter_fixed (gold red : Color.t) (count : nat)
    (ps : list Ribbons.Particle) (s : Rand.Stream)
    (mode : AppMode) (time delta : R) :
  Ribbons.render gold red (Some (count, ps)) count s = (Some (count, ps), s)
  /\ map Ribbons.initialPos (Ribbons.useFrame mode time delta ps)
     = map Ribbons.initialPos ps.
Proof.
  split.
  - unfold Ribbons.render, Rand.bind. rewrite useMemo_hit. reflexivity.
  - unfold Ribbons.useFrame. rewrite map_map. reflexivity.
Qed.

(** C6 asks that the scatter position of a photo is drawn once.  With one
    photo uploaded, the render that follows the next gesture event (here
    a frame without a hand) draws the scatter position of that photo
    anew: it was (-12.5, -10, -7.5) and becomes (12.5, 10, 7.5), the photo
    list being the same. *)
Theorem photo_scatter_redrawn :
  let g := Rand.ofList [0.5; 0.25; 0.25; 0.25; 0.5; 0.75; 0.75; 0.75] 0.5 in
  let s1 := Scene.exec [Scene.Upload ["a.jpg"%string]] (Scene.mount g) in
  let s2 := Scene.step (Scene.GestureEvent 1 Hand.noHand) s1 in
  map SinglePhoto.initialPos (PhotoCollection.shown (Scene.collection s1))
  = [(-12.5, -10, -7.5)]
  /\ map SinglePhoto.initialPos (PhotoCollection.shown (Scene.collection s2))
     = [(12.5, 10, 7.5)]
  /\ App.photos (Scene.app s2) = App.photos (Scene.app s1)
  /\ map SinglePhoto.initialPos (PhotoCollection.shown (Scene.collection s2))
     <> map SinglePhoto.initialPos (PhotoCollection.shown (Scene.collection s1)).
Proof.
  cbv zeta.
  set (s1 := Scene.exec _ _). set (s2 := Scene.step _ s1).
  assert (H1 : map SinglePhoto.initialPos (PhotoCollection.shown (Scene.collection s1))
               = [((0.25 - 0.5) * 50, (0.25 - 0.5) * 40, (0.25 - 0.5) * 30)])
    by reflexivity.
  assert (H2 : map SinglePhoto.initialPos (PhotoCollection.shown (Scene.collection s2))
               = [((0.75 - 0.5) * 50, (0.75 - 0.5) * 40, (0.75 - 0.5) * 30)])
    by reflexivity.
  rewrite H1, H2.
  repeat match goal with |- _ /\ _ => split end.
  - repeat f_equal; lra.
  - repeat f_equal; lra.
  - reflexivity.
  - intros H. injection H as H _ _. lra.
Qed.

(* ------------------------------------------------------------------ *)
(** ** Focus *)
(* ------------------------------------------------------------------ *)

Section ActiveFlags.

Variables (mode : AppMode) (a : option nat) (total : nat).

Lemma mapPhotos_isActive (photos : list string) :
  forall (i : nat) (s : Rand.Stream),
  map SinglePhoto.isActive
    (fst (PhotoCollection.mapPhotos
            (PhotoCollection.photoProps mode a total) i photos s))
  = map (PhotoCollection.isActiveId a) (seq i (List.length photos)).
Proof.
  induction photos as [|u rest IH]; intros i s.
  - reflexivity.
  - cbn [PhotoCollection.mapPhotos List.length seq map]. unfold Rand.bind at 1.
    destruct (PhotoCollection.photoProps mode a total i u s) as [p s1] eqn:Ep.
    unfold Rand.bind at 1.
    destruct (PhotoCollection.mapPhotos _ (S i) rest s1) as [ps s2] eqn:Er.
    cbn [Rand.ret fst map]. f_equal.
    + apply (f_equal fst) in Ep. cbn [fst] in Ep. subst p. reflexivity.
    + specialize (IH (S i) s1). rewrite Er in IH. exact IH.
Qed.

End ActiveFlags.

Lemma filter_length_flags {A} (f : A -> bool) (l : list A) :
  List.length (filter f l) = List.length (filter (fun b : bool => b) (map f l)).
Proof.
  induction l as [|x l IH]; simpl; [reflexivity|].
  destruct (f x); simpl; rewrite IH; reflexivity.
Qed.

Lemma flags_seq_none (i n : nat) :
  filter (fun b : bool => b) (map (PhotoCollection.isActiveId None) (seq i n)) = [].
Proof.
  revert i. induction n as [|n IH]; intros i; simpl; [reflexivity|apply IH].
Qed.

Lemma flags_seq_below (k n : nat) :
  forall i, (k < i)%nat ->
  filter (fun b : bool => b)
    (map (PhotoCollection.isActiveId (Some k)) (seq i n)) = [].
Proof.
  induction n as [|n IH]; intros i Hk; simpl; [reflexivity|].
  destruct (Nat.eqb_spec i k); [lia|]. apply IH. lia.
Qed.

Lemma flags_seq_le1 (a : option nat) (n : nat) :
  forall i,
  (List.length (filter (fun b : bool => b)
                  (map (PhotoCollection.isActiveId a) (seq i n))) <= 1)%nat.
Proof.
  destruct a as [k|]; [|intros i; rewrite flags_seq_none; simpl; lia].
  induction n as [|n IH]; intros i; simpl; [lia|].
  destruct (Nat.eqb_spec i k) as [->|Hne].
  - rewrite flags_seq_below by lia. simpl. lia.
  - apply IH.
Qed.

Lemma renderPhotos_focus (mode : AppMode) (photos : list string)
    (a : option nat) (s : Rand.Stream) :
  let shown := fst (PhotoCollection.renderPhotos mode photos a s) in
  (List.length (filter SinglePhoto.isActive shown) <= 1)%nat
  /\ (a = None -> filter SinglePhoto.isActive shown = []).
Proof.
  cbv zeta. unfold PhotoCollection.renderPhotos. split.
  - rewrite filter_length_flags, mapPhotos_isActive. apply flags_seq_le1.
  - intros ->. apply length_zero_iff_nil.
    rewrite filter_length_flags, mapPhotos_isActive, flags_seq_none.
    reflexivity.
Qed.

Lemma effect_not_inspect (m : AppMode) (ph : list string) (s : Rand.Stream) :
  m <> INSPECT -> PhotoCollection.effect m ph s = (None, s).
Proof.
  intros H. unfold PhotoCollection.effect.
  destruct m; try contradiction; reflexivity.
Qed.

Lemma Math_floor_below (x : R) (n : nat) :
  0 <= x < INR n -> (Math_floor x < n)%nat.
Proof.
  intros [H0 Hn]. unfold Math_floor.
  destruct (base_Int_part x) as [Hle _].
  assert (Hz : (Int_part x < Z.of_nat n)%Z).
  { apply lt_IZR. rewrite <- INR_IZR_INZ. lra. }
  assert (Hpos : (0 < n)%nat).
  { destruct n; [simpl in Hn; lra|lia]. }
  lia.
Qed.

(** In INSPECT mode with photos the effect picks an index of the photo
    list. *)
Lemma effect_index_in_range (ph : list string) (s : Rand.Stream) :
  Rand.valid s -> ph <> [] ->
  exists k, PhotoCollection.effect INSPECT ph s = (Some k, Rand.drop 1 s)
            /\ (k < List.length ph)%nat.
Proof.
  intros Hs Hne. unfold PhotoCollection.effect. cbn [AppMode_eqb andb].
  destruct ph as [|u rest]; [contradiction|]. cbn [List.length Nat.ltb Nat.leb].
  eexists. split; [reflexivity|].
  apply Math_floor_below. specialize (Hs 0%nat).
  pose proof (pos_INR (List.length rest)) as Hl.
  rewrite S_INR. nra.
Qed.

Lemma AppMode_eqb_eq (x y : AppMode) : AppMode_eqb x y = true -> x = y.
Proof. destruct x, y; simpl; congruence. Qed.

Lemma deps_eqb_eq (m0 m : AppMode) (ph0 ph : list string) :
  PhotoCollection.deps_eqb (Some (m0, ph0)) m ph = true -> m0 = m /\ ph0 = ph.
Proof.
  unfold PhotoCollection.deps_eqb. intros H.
  apply andb_prop in H as [Hm Hp]. apply AppMode_eqb_eq in Hm.
  destruct (list_eq_dec string_dec ph0 ph); [auto|discriminate].
Qed.

Section Collection.

Import PhotoCollection.

(** What running the scheduled effect leaves. *)
Lemma runPending_rendered (m : AppMode) (ph : list string) (c : Instance)
    (s : Rand.Stream) :
  rendered m ph c ->
  let c1 := fst (runPending c s) in
  lastDeps c1 = Some (m, ph)
  /\ pendingEffect c1 = None
  /\ shown c1 = shown c
  /\ (m <> INSPECT -> activeId c1 = None)
  /\ (pendingEffect c = None -> c1 = c).
Proof.
  intros (Hd & Hs & Hp). cbv zeta. unfold runPending.
  destruct (pendingEffect c) as [[m0 ph0]|] eqn:E.
  - injection Hp as -> ->. unfold Rand.bind.
    destruct (effect m ph s) as [a s1] eqn:Ee. cbn.
    repeat match goal with |- _ /\ _ => split end; try easy.
    intros Hm. rewrite effect_not_inspect in Ee by exact Hm. congruence.
  - cbn. repeat match goal with |- _ /\ _ => split end; try easy.
Qed.

(** Preserve: a render. *)
Lemma render_rendered (m m0 : AppMode) (ph ph0 : list string) (c : Instance)
    (s : Rand.Stream) :
  rendered m0 ph0 c -> rendered m ph (fst (render m ph c s)).
Proof.
  intros Hc. unfold render, Rand.bind.
  pose proof (runPending_rendered m0 ph0 c s Hc) as H. cbv zeta in H.
  destruct (runPending c s) as [c1 s1]. cbn [fst] in H.
  destruct H as (Hd & Hp & _ & Ha & _).
  destruct (renderPhotos m ph (activeId c1) s1) as [ps s2] eqn:Er.
  cbn [Rand.ret fst]. unfold rendered.
  cbn [lastDeps shown pendingEffect activeId].
  split; [reflexivity|]. split.
  - exists s1. rewrite Er. reflexivity.
  - rewrite Hd. destruct (deps_eqb (Some (m0, ph0)) m ph) eqn:Ed; [|reflexivity].
    apply deps_eqb_eq in Ed as [-> ->]. exact Ha.
Qed.

(** Establish: the first render. *)
Lemma mount_rendered (m : AppMode) (ph : list string) (s : Rand.Stream) :
  rendered m ph (fst (render m ph unmounted s)).
Proof.
  unfold render, Rand.bind. cbn [runPending unmounted pendingEffect Rand.ret activeId].
  destruct (renderPhotos m ph None s) as [ps s2] eqn:Er.
  cbn [Rand.ret fst lastDeps deps_eqb]. unfold rendered.
  cbn [lastDeps shown pendingEffect activeId].
  split; [reflexivity|]. split; [|reflexivity].
  exists s. rewrite Er. reflexivity.
Qed.

Lemma activeId_eqb_eq (a b : option nat) : activeId_eqb a b = true -> a = b.
Proof.
  destruct a, b; simpl; try congruence.
  intros H. apply Nat.eqb_eq in H. congruence.
Qed.

(** Preserve: the effects run, after which none is scheduled. *)
Lemma flushEffect_rendered (m : AppMode) (ph : list string) (c : Instance)
    (s : Rand.Stream) :
  rendered m ph c ->
  rendered m ph (fst (flushEffect c s))
  /\ pendingEffect (fst (flushEffect c s)) = None.
Proof.
  intros Hc. pose proof Hc as (Hd & Hs & Hp).
  unfold flushEffect. rewrite Hd.
  destruct (pendingEffect c) as [d|] eqn:E.
  - unfold Rand.bind.
    pose proof (runPending_rendered m ph c s Hc) as H. cbv zeta in H.
    destruct (runPending c s) as [c1 s1]. cbn [fst] in H.
    destruct H as (Hd1 & Hp1 & Hs1 & Ha1 & _).
    destruct (activeId_eqb (activeId c1) (activeId c)) eqn:Ea.
    + apply activeId_eqb_eq in Ea. cbn [Rand.ret fst].
      split; [|exact Hp1]. unfold rendered. rewrite Hd1, Hp1, Hs1, Ea.
      split; [reflexivity|]. split; [exact Hs|]. rewrite <- Ea. exact Ha1.
    + destruct (renderPhotos m ph (activeId c1) s1) as [ps s2] eqn:Er.
      cbn [Rand.ret fst]. split; [|reflexivity]. unfold rendered.
      cbn [lastDeps shown pendingEffect activeId].
      split; [exact Hd1|]. split; [|exact Ha1].
      exists s1. rewrite Er. reflexivity.
  - cbn [Rand.ret fst]. rewrite E. split; [exact Hc|reflexivity].
Qed.

(** Use: what is drawn as focused. *)
Lemma rendered_focus (m : AppMode) (ph : list string) (c : Instance) :
  rendered m ph c ->
  (List.length (filter SinglePhoto.isActive (shown c)) <= 1)%nat
  /\ (pendingEffect c = None -> m <> INSPECT ->
      filter SinglePhoto.isActive (shown c) = []).
Proof.
  intros (Hd & [s Hs] & Hp). rewrite Hs.
  pose proof (renderPhotos_focus m ph (activeId c) s) as [H1 H2].
  split; [exact H1|]. intros E Hm. rewrite E in Hp. apply H2, Hp, Hm.
Qed.

End Collection.

Section SceneInvariant.

Lemma rerender_consistent (a : App.State) (s : Scene.State) :
  Scene.consistent s -> Scene.consistent (Scene.rerender a s).
Proof.
  unfold Scene.consistent, Scene.rerender. intros H.
  pose proof (render_rendered (App.mode a) _ (App.photos a) _ _ (Scene.rng s) H) as R.
  destruct (PhotoCollection.render _ _ _ _) as [c g]. exact R.
Qed.

Lemma mount_consistent (g : Rand.Stream) : Scene.consistent (Scene.mount g).
Proof.
  unfold Scene.consistent, Scene.mount, Scene.rerender. cbn [Scene.collection Scene.rng].
  pose proof (mount_rendered (App.mode App.init) (App.photos App.init) g) as R.
  destruct (PhotoCollection.render _ _ _ _) as [c g']. exact R.
Qed.

Lemma step_consistent (e : Scene.Event) (s : Scene.State) :
  Scene.consistent s -> Scene.consistent (Scene.step e s).
Proof.
  intros H. destruct e as [n st|newPhotos|]; cbn [Scene.step].
  - apply rerender_consistent, H.
  - apply rerender_consistent, H.
  - unfold Scene.consistent in *.
    pose proof (flushEffect_rendered _ _ _ (Scene.rng s) H) as [R _].
    destruct (PhotoCollection.flushEffect _ _) as [c g]. exact R.
Qed.

Lemma exec_consistent (events : list Scene.Event) :
  forall s, Scene.consistent s -> Scene.consistent (Scene.exec events s).
Proof.
  induction events as [|e rest IH]; intros s H; cbn [Scene.exec].
  - exact H.
  - apply IH, step_consistent, H.
Qed.

Lemma effectsRun_settled (s : Scene.State) :
  Scene.consistent s ->
  PhotoCollection.pendingEffect (Scene.collection (Scene.step Scene.EffectsRun s))
  = None.
Proof.
  intros H. cbn [Scene.step]. unfold Scene.consistent in H.
  pose proof (flushEffect_rendered _ _ _ (Scene.rng s) H) as [_ R].
  destruct (PhotoCollection.flushEffect _ _) as [c g]. exact R.
Qed.

End SceneInvariant.

Lemma Math_floor_half : Math_floor (0.5 * INR 1) = 0%nat.
Proof.
  unfold Math_floor. rewrite <- (Int_part_spec (0.5 * INR 1) 0); [reflexivity|].
  simpl. lra.
Qed.

(** C10, as the specification words it, fails in its second half.  One
    photo is uploaded, a PINCH enters INSPECT and the effect focuses the
    photo; then a FIST sets the mode to TREE, and in the render that
    follows the photo is still drawn with [isActive = true]: the effect
    that clears the focus is scheduled and has not run yet. *)
Lemma focus_outlives_inspect_for_one_render :
  let s := Scene.exec
             [ Scene.Upload ["a.jpg"%string];
               Scene.GestureEvent 1 (mkHand true PINCH (mkPoint2 0.5 0.5));
               Scene.EffectsRun;
               Scene.GestureEvent 1 (mkHand true FIST (mkPoint2 0.5 0.5)) ]
             (Scene.mount (Rand.const 0.5)) in
  App.mode (Scene.app s) = TREE
  /\ map SinglePhoto.isActive (PhotoCollection.shown (Scene.collection s)) = [true]
  /\ List.length (Scene.focused s) = 1%nat
  /\ PhotoCollection.pendingEffect (Scene.collection s)
     = Some (TREE, ["a.jpg"%string]).
Proof.
  cbv zeta. set (s := Scene.exec _ _).
  assert (Hf : map SinglePhoto.isActive (PhotoCollection.shown (Scene.collection s))
               = [Nat.eqb 0 (Math_floor (0.5 * INR 1))]) by reflexivity.
  rewrite Math_floor_half in Hf.
  split; [reflexivity|]. split; [exact Hf|]. split.
  - unfold Scene.focused. rewrite filter_length_flags, Hf. reflexivity.
  - reflexivity.
Qed.

(** C10, amended.  In every state the scene can reach, at most one photo
    is drawn as focused.  Whenever no effect of the photo collection is
    waiting to run and the mode is TREE or SCATTER, no photo is focused;
    in particular this holds as soon as the effects have run after the
    mode left INSPECT.  (In the one render between the change of the mode
    and that effect the former focus is still set; outside
    INSPECT the target and the scale of a photo do not depend on it.) *)
Theorem focus_invariant (events : list Scene.Event) (g : Rand.Stream) :
  let s := Scene.exec events (Scene.mount g) in
  let settled := Scene.step Scene.EffectsRun s in
  (List.length (Scene.focused s) <= 1)%nat
  /\ (PhotoCollection.pendingEffect (Scene.collection s) = None ->
      App.mode (Scene.app s) <> INSPECT -> Scene.focused s = [])
  /\ (App.mode (Scene.app settled) = App.mode (Scene.app s)
      /\ (App.mode (Scene.app s) <> INSPECT -> Scene.focused settled = []))
  /\ (forall id url treePos initialPos m time,
        m <> INSPECT ->
        SinglePhoto.target (SinglePhoto.mkProps id url treePos initialPos m true) time
        = SinglePhoto.target (SinglePhoto.mkProps id url treePos initialPos m false) time
        /\ SinglePhoto.targetScale (SinglePhoto.mkProps id url treePos initialPos m true)
           = SinglePhoto.targetScale (SinglePhoto.mkProps id url treePos initialPos m false)).
Proof.
  cbv zeta.
  pose proof (exec_consistent events _ (mount_consistent g)) as Hc.
  set (s := Scene.exec events (Scene.mount g)) in *.
  pose proof (rendered_focus _ _ _ Hc) as [H1 H2].
  split; [exact H1|]. split; [exact H2|]. split.
  - pose proof (step_consistent Scene.EffectsRun s Hc) as Hc'.
    pose proof (effectsRun_settled s Hc) as Hp.
    pose proof (rendered_focus _ _ _ Hc') as [_ H3].
    assert (Hm : App.mode (Scene.app (Scene.step Scene.EffectsRun s))
                 = App.mode (Scene.app s)).
    { cbn [Scene.step]. destruct (PhotoCollection.flushEffect _ _). reflexivity. }
    split; [exact Hm|]. intros Hn. apply H3; [exact Hp|]. rewrite Hm. exact Hn.
  - intros id url [[t0 t1] t2] [[i0 i1] i2] m time Hm.
    destruct m; try contradiction; split; reflexivity.
Qed.

(* ================================================================== *)
(** * Further properties of the code *)
(* ================================================================== *)

(* ------------------------------------------------------------------ *)
(** ** The classifier on complete and on short hands *)
(* ------------------------------------------------------------------ *)

Lemma at_inside (landmarks : list Point2) (i : nat) :
  (i < List.length landmarks)%nat ->
  Hand.at_ landmarks i = Hand.Ok (Hand.lm landmarks i).
Proof.
  intros Hi. unfold Hand.at_, Hand.lm.
  destruct (nth_error landmarks i) eqn:E.
  - f_equal. symmetry. apply nth_error_nth, E.
  - apply nth_error_None in E. lia.
Qed.

Lemma at_outside (landmarks : list Point2) (i : nat) :
  (List.length landmarks <= i)%nat ->
  Hand.at_ landmarks i = Hand.Throw Hand.TypeError.
Proof.
  intros Hi. unfold Hand.at_.
  apply nth_error_None in Hi. rewrite Hi. reflexivity.
Qed.

Lemma at_throws_TypeError (landmarks : list Point2) (i : nat) (e : Hand.Exn) :
  Hand.at_ landmarks i = Hand.Throw e -> e = Hand.TypeError.
Proof.
  unfold Hand.at_. destruct (nth_error landmarks i); congruence.
Qed.

Ltac step_at :=
  match goal with
  | |- context [Hand.bind (Hand.at_ ?l ?i) _] =>
      let E := fresh "E" in
      destruct (Hand.at_ l i) eqn:E; cbn [Hand.bind];
      [ | apply at_throws_TypeError in E; subst; try reflexivity ]
  end.

Lemma detectGesture_short (landmarks : list Point2) :
  (List.length landmarks < 21)%nat ->
  Hand.detectGesture landmarks = Hand.Throw Hand.TypeError.
Proof.
  intros Hlen.
  assert (H20 : Hand.at_ landmarks 20 = Hand.Throw Hand.TypeError)
    by (apply at_outside; lia).
  unfold Hand.detectGesture, Hand.isFingerExtended.
  repeat step_at. congruence.
Qed.

Lemma detectGesture_long (landmarks : list Point2) :
  (21 <= List.length landmarks)%nat ->
  exists g, Hand.detectGesture landmarks = Hand.Ok g.
Proof.
  intros Hlen. unfold Hand.detectGesture, Hand.isFingerExtended.
  rewrite !at_inside by lia. cbn [Hand.bind].
  destruct (Rltb _ 0.05); [eexists; reflexivity|].
  destruct (Nat.eqb _ 5); [eexists; reflexivity|].
  destruct (Nat.eqb _ 0); eexists; reflexivity.
Qed.

(** X1. The classifier throws a TypeError exactly on the hands with fewer
    than 21 landmarks; on every other hand it returns a gesture. *)
Theorem detectGesture_throws_iff_short (landmarks : list Point2) :
  (Hand.detectGesture landmarks = Hand.Throw Hand.TypeError
   <-> (List.length landmarks < 21)%nat)
  /\ ((exists g, Hand.detectGesture landmarks = Hand.Ok g)
      <-> (21 <= List.length landmarks)%nat)
  /\ Hand.detectGesture landmarks <> Hand.Throw Hand.DetectorError.
Proof.
  destruct (Nat.lt_ge_cases (List.length landmarks) 21) as [Hs|Hl].
  - pose proof (detectGesture_short landmarks Hs) as E. rewrite E.
    repeat split; try easy; try lia.
    intros [g Hg]. discriminate.
  - destruct (detectGesture_long landmarks Hl) as [g E]. rewrite E.
    repeat split; try easy; try lia.
    intros _. exists g. reflexivity.
Qed.

Section Decision.

Variable landmarks : list Point2.
Hypothesis complete : List.length landmarks = 21%nat.
Hypothesis apart : 0.05 <= dist2D (Hand.lm landmarks 4) (Hand.lm landmarks 8).

Lemma extended_spread (tipIdx mcpIdx : nat) :
  1.5 * dist2D (Hand.lm landmarks Hand.WRIST) (Hand.lm landmarks mcpIdx)
  < dist2D (Hand.lm landmarks Hand.WRIST) (Hand.lm landmarks tipIdx) ->
  Hand.extended landmarks tipIdx mcpIdx = true.
Proof.
  intros H. unfold Hand.extended, Rgtb. apply Rltb_true.
  rewrite (dist2D_sym (Hand.lm landmarks tipIdx)),
          (dist2D_sym (Hand.lm landmarks mcpIdx)). lra.
Qed.

Lemma detectGesture_by_count :
  Hand.detectGesture landmarks =
  Hand.Ok
    (let extendedCount :=
       List.length (filter (fun b : bool => b)
         [Hand.extended landmarks 4 2; Hand.extended landmarks 8 5;
          Hand.extended landmarks 12 9; Hand.extended landmarks 16 13;
          Hand.extended landmarks 20 17]) in
     if Nat.eqb extendedCount 5 then OPEN
     else if Nat.eqb extendedCount 0 then FIST
     else NONE).
Proof.
  rewrite detectGesture_complete by exact complete. cbv zeta.
  pose proof apart as Hd. rewrite dist2D_sym in Hd.
  apply Rltb_false in Hd. rewrite Hd. reflexivity.
Qed.

Lemma detectGesture_open :
  Poses.allExtended landmarks -> Hand.detectGesture landmarks = Hand.Ok OPEN.
Proof.
  unfold Poses.allExtended, Hand.digits. intros H.
  repeat match goal with
         | H : Forall _ (_ :: _) |- _ => inversion H; subst; clear H
         end.
  cbn [fst snd] in *.
  rewrite detectGesture_by_count. cbv zeta.
  rewrite !extended_spread by assumption. reflexivity.
Qed.

Lemma detectGesture_none (d1 d2 : nat * nat) :
  In d1 Hand.digits -> Hand.extended landmarks (fst d1) (snd d1) = true ->
  In d2 Hand.digits -> Hand.extended landmarks (fst d2) (snd d2) = false ->
  Hand.detectGesture landmarks = Hand.Ok NONE.
Proof.
  intros I1 E1 I2 E2. rewrite detectGesture_by_count. cbv zeta.
  unfold Hand.digits in I1, I2. cbn [In] in I1, I2.
  repeat match goal with
         | H : _ \/ _ |- _ => destruct H
         | H : False |- _ => contradiction
         | H : (_, _) = _ |- _ => subst; cbn [fst snd] in *
         end;
    try congruence; rewrite E1, E2;
    repeat match goal with
           | |- context [Hand.extended landmarks ?t ?m] =>
               destruct (Hand.extended landmarks t m)
           end; reflexivity.
Qed.

End Decision.

Ltac pose_squares :=
  unfold dist2D, Hand.lm, Hand.WRIST, Poses.openHand, Poses.pointingHand;
  cbn [nth px py].

Ltac apart_by_squares :=
  pose_squares; apply Rnot_lt_le; intros H; apply hypot_lt_const in H; lra.

Ltac spread_by_squares :=
  pose_squares;
  match goal with
  | |- 1.5 * hypot ?c ?d < hypot ?a ?b =>
      apply Rnot_le_lt; intros H; apply hypot_scaled_le in H; lra
  end.

(** X2. On a hand of 21 landmarks on which every digit has its tip more
    than 1.5 times as far from the wrist as its base joint, and whose
    thumb tip and index fingertip are at least 0.05 apart, the classifier
    answers OPEN. *)
Theorem spread_without_pinch_is_open (landmarks : list Point2) :
  List.length landmarks = 21%nat ->
  Poses.allExtended landmarks ->
  0.05 <= dist2D (Hand.lm landmarks 4) (Hand.lm landmarks 8) ->
  Hand.detectGesture landmarks = Hand.Ok OPEN.
Proof. intros Hl He Hd. apply detectGesture_open; assumption. Qed.

Lemma spread_without_pinch_is_open_witness :
  Hand.detectGesture Poses.openHand = Hand.Ok OPEN.
Proof.
  apply (spread_without_pinch_is_open Poses.openHand).
  - reflexivity.
  - unfold Poses.allExtended, Hand.digits.
    repeat first [apply Forall_nil | apply Forall_cons];
      cbn [fst snd]; spread_by_squares.
  - apart_by_squares.
Defined.

(** X3. On a hand of 21 landmarks whose thumb tip and index fingertip are
    at least 0.05 apart, and on which some digit counts as extended and
    some digit does not, the classifier answers NONE. *)
Theorem mixed_digits_is_none (landmarks : list Point2) (d1 d2 : nat * nat) :
  List.length landmarks = 21%nat ->
  0.05 <= dist2D (Hand.lm landmarks 4) (Hand.lm landmarks 8) ->
  In d1 Hand.digits -> Hand.extended landmarks (fst d1) (snd d1) = true ->
  In d2 Hand.digits -> Hand.extended landmarks (fst d2) (snd d2) = false ->
  Hand.detectGesture landmarks = Hand.Ok NONE.
Proof. intros Hl Hd. apply detectGesture_none; assumption. Qed.

Lemma mixed_digits_is_none_witness :
  Hand.detectGesture Poses.pointingHand = Hand.Ok NONE.
Proof.
  apply (mixed_digits_is_none Poses.pointingHand (8, 5)%nat (12, 9)%nat).
  - reflexivity.
  - apart_by_squares.
  - unfold Hand.digits. cbn [In]. auto.
  - cbn [fst snd]. apply extended_spread. spread_by_squares.
  - unfold Hand.digits. cbn [In]. auto.
  - cbn [fst snd]. apply curled_not_extended.
    pose_squares. apply hypot_scaled_le. lra.
Defined.

Section Isometry.

Variable f : Point2 -> Point2.
Hypothesis keeps_distance : forall p q,
  hypot (px (f p) - px (f q)) (py (f p) - py (f q))
  = hypot (px p - px q) (py p - py q).

Lemma at_map (landmarks : list Point2) (i : nat) :
  Hand.at_ (map f landmarks) i
  = Hand.bind (Hand.at_ landmarks i) (fun p => Hand.Ok (f p)).
Proof.
  unfold Hand.at_. rewrite nth_error_map.
  destruct (nth_error landmarks i); reflexivity.
Qed.

Lemma detectGesture_map (landmarks : list Point2) :
  Hand.detectGesture (map f landmarks) = Hand.detectGesture landmarks.
Proof.
  unfold Hand.detectGesture, Hand.isFingerExtended.
  rewrite !at_map.
  repeat match goal with
         | |- context [Hand.at_ landmarks ?i] =>
             destruct (Hand.at_ landmarks i); cbn [Hand.bind]; try reflexivity
         end.
  rewrite !keeps_distance. reflexivity.
Qed.

End Isometry.

(** X4. The answer of the classifier, a thrown TypeError included, does
    not change when every landmark is shifted by the same vector, nor when
    the hand is mirrored left to right. *)
Theorem detectGesture_shift_mirror (landmarks : list Point2) (dx dy : R) :
  Hand.detectGesture (map (Poses.translate dx dy) landmarks)
  = Hand.detectGesture landmarks
  /\ Hand.detectGesture (map Poses.mirror landmarks)
     = Hand.detectGesture landmarks.
Proof.
  split; apply detectGesture_map; intros p q;
    unfold hypot, Poses.translate, Poses.mirror; cbn [px py]; f_equal; ring.
Qed.

(* ------------------------------------------------------------------ *)
(** ** The prediction loop on a frame with a hand *)
(* ------------------------------------------------------------------ *)

Lemma tryCatch_lastVideoTime (d : Hand.Detection) (k : Hand.Loop) :
  Hand.lastVideoTime (Hand.tryCatch (Hand.tryBody d k) (fun _ => Hand.warn k))
  = Hand.lastVideoTime k.
Proof.
  pose proof (tryBody_emits d k) as H.
  destruct (Hand.tryBody d k); cbn [Hand.tryCatch].
  - destruct H as [st ->]. reflexivity.
  - reflexivity.
Qed.

Lemma predictWebcam_lastVideoTime (t : R) (d : Hand.Detection) (l l1 : Hand.Loop) :
  Hand.predictWebcam true t d l = Hand.Ok l1 -> Hand.lastVideoTime l1 = t.
Proof.
  unfold Hand.predictWebcam. cbn [negb]. intros H. injection H as <-.
  cbn [Hand.requestAnimationFrame Hand.lastVideoTime].
  unfold Reqb. destruct (Req_dec_T t (Hand.lastVideoTime l)) as [E|E]; cbn [negb].
  - symmetry. exact E.
  - rewrite tryCatch_lastVideoTime. reflexivity.
Qed.

(** X5. A second call of the loop at the same video time hands nothing to
    the gesture callback and logs nothing, whatever the detector would
    answer: it only requests the next frame. *)
Theorem same_video_time_is_skipped (t : R) (d d' : Hand.Detection) (l : Hand.Loop) :
  Hand.bind (Hand.predictWebcam true t d l) (Hand.predictWebcam true t d')
  = Hand.bind (Hand.predictWebcam true t d l)
      (fun l1 => Hand.Ok (Hand.requestAnimationFrame l1)).
Proof.
  destruct (Hand.predictWebcam true t d l) as [l1|e] eqn:E; cbn [Hand.bind].
  - apply predictWebcam_same_frame. symmetry.
    apply (predictWebcam_lastVideoTime t d l l1 E).
  - reflexivity.
Qed.



(** X7. On a new video frame whose first hand has fewer than 21 landmarks,
    the TypeError of the landmark access is caught inside the loop: a
    warning is logged, nothing is handed to the gesture callback and the
    next frame is requested. *)
Theorem short_hand_is_skipped (currentTime : R) (l : Hand.Loop)
    (landmarks : list Point2) (others : list (list Point2)) :
  currentTime <> Hand.lastVideoTime l ->
  (List.length landmarks < 21)%nat ->
  Hand.predictWebcam true currentTime (Hand.Detected (landmarks :: others)) l
  = Hand.Ok {| Hand.lastVideoTime := currentTime;
               Hand.emitted := Hand.emitted l;
               Hand.warnings := S (Hand.warnings l);
               Hand.requested := S (Hand.requested l) |}.
Proof.
  intros Hnew Hlen. rewrite predictWebcam_new_frame by exact Hnew.
  unfold Hand.tryBody. cbn [Hand.detectForVideo Hand.bind].
  rewrite detectGesture_short by exact Hlen.
  destruct (Hand.at_ landmarks 0); cbn [Hand.bind]; [|reflexivity].
  destruct (Hand.at_ landmarks 9); reflexivity.
Qed.

Lemma short_hand_is_skipped_witness :
  Hand.predictWebcam true 0 (Hand.Detected [[mkPoint2 0.5 0.8]]) Hand.start
  = Hand.Ok {| Hand.lastVideoTime := 0;
               Hand.emitted := [];
               Hand.warnings := 1;
               Hand.requested := 1 |}.
Proof.
  apply (short_hand_is_skipped 0 Hand.start [mkPoint2 0.5 0.8] []).
  - cbn. lra.
  - cbn. lia.
Defined.

(* ------------------------------------------------------------------ *)
(** ** Layout helpers on a well-formed random source *)
(* ------------------------------------------------------------------ *)

Lemma valid_const_half : Rand.valid (Rand.const 0.5).
Proof. intros k. unfold Rand.const. lra. Qed.

Lemma valid_drop (k : nat) (s : Rand.Stream) :
  Rand.valid s -> Rand.valid (Rand.drop k s).
Proof. intros H i. apply H. Qed.

Lemma drop_drop (j k : nat) (s : Rand.Stream) (i : nat) :
  Rand.drop j (Rand.drop k s) i = Rand.drop (k + j) s i.
Proof. unfold Rand.drop. f_equal. lia. Qed.

Lemma scatter_bounds (u0 u1 u2 : R) :
  0 <= u0 < 1 -> 0 <= u1 < 1 -> 0 <= u2 < 1 ->
  -25 <= (u0 - 0.5) * 50 < 25 /\ -20 <= (u1 - 0.5) * 40 < 20
  /\ -15 <= (u2 - 0.5) * 30 < 15.
Proof. intros H0 H1 H2. repeat split; lra. Qed.

(** X8. With draws in [0, 1) a scatter position lies in the box
    [-25, 25) x [-20, 20) x [-15, 15), and it uses exactly three draws. *)
Theorem getScatterPos_in_box (s : Rand.Stream) :
  Rand.valid s ->
  let '(x, y, z) := fst (getScatterPos s) in
  (-25 <= x < 25 /\ -20 <= y < 20 /\ -15 <= z < 15)
  /\ snd (getScatterPos s) = Rand.drop 3 s.
Proof.
  intros H. rewrite getScatterPos_draws. cbn [fst snd].
  split; [|reflexivity]. apply scatter_bounds; apply H.
Qed.

Lemma getScatterPos_in_box_witness :
  let '(x, y, z) := fst (getScatterPos (Rand.const 0.5)) in
  (-25 <= x < 25 /\ -20 <= y < 20 /\ -15 <= z < 15)
  /\ snd (getScatterPos (Rand.const 0.5)) = Rand.drop 3 (Rand.const 0.5).
Proof. exact (getScatterPos_in_box (Rand.const 0.5) valid_const_half). Defined.

Lemma Math_pow_unit (u e : R) : 0 <= u < 1 -> 0 < e -> 0 <= Math_pow u e < 1.
Proof.
  intros [H0 H1] He. unfold Math_pow, Reqb.
  destruct (Req_dec_T u 0) as [E|E]; [lra|].
  assert (Hu : 0 < u) by lra.
  unfold Rpower. split; [left; apply exp_pos|].
  rewrite <- exp_0. apply exp_increasing.
  assert (Hl : ln u < 0).
  { rewrite <- ln_1. apply ln_increasing; lra. }
  nra.
Qed.

Lemma getTreeData_geometry (index total : R) (s : Rand.Stream) :
  Rand.valid s -> 0 < total -> 0 <= index <= total ->
  let td := fst (getTreeData index total s) in
  let p := pos td in
  Vector3.y p = 18 * (index / total) - 9
  /\ -9 <= Vector3.y p <= 9
  /\ radiusAtHeight td = 7.5 * (1 - index / total)
  /\ 0 <= r td <= radiusAtHeight td
  /\ Vector3.x p * Vector3.x p + Vector3.z p * Vector3.z p = r td * r td
  /\ yPercent td = index / total
  /\ snd (getTreeData index total s) = Rand.drop 1 s.
Proof.
  intros Hs Ht Hi. cbv zeta.
  assert (Hq : 0 <= index / total <= 1).
  { split.
    - apply Rmult_le_pos; [lra|]. left. apply Rinv_0_lt_compat, Ht.
    - apply (Rmult_le_reg_r total); [exact Ht|]. field_simplify; lra. }
  pose proof (Math_pow_unit (s 0%nat) 0.4 (Hs 0%nat) ltac:(lra)) as Hp.
  unfold getTreeData, Rand.bind, Rand.random, Rand.ret.
  cbn [fst snd pos r radiusAtHeight yPercent Vector3.x Vector3.y Vector3.z].
  unfold TREE_HEIGHT, TREE_RADIUS.
  set (q := index / total) in *. set (w := Math_pow (s 0%nat) 0.4) in *.
  set (a := index * 2.39996).
  repeat match goal with |- _ /\ _ => split end; try lra; try nra.
  - set (k := (18 / 2 - (q * 18 - 18 / 2)) * (7.5 / 18) * w).
    replace (cos a * k * (cos a * k) + sin a * k * (sin a * k))
      with ((Rsqr (sin a) + Rsqr (cos a)) * (k * k)) by (unfold Rsqr; ring).
    rewrite sin2_cos2. ring.
  - reflexivity.
Qed.

(** X9. For an index between 0 and a positive total and draws in [0, 1),
    tree placement gives a point of the cone: its height is
    18 * index / total - 9, between -9 and 9; the cone radius at that
    height is 7.5 * (1 - index / total); the point keeps the distance r
    from the axis, and r is at least 0 and at most the cone radius;
    [yPercent] is index / total.  One draw is used. *)
Theorem getTreeData_in_cone (index total : R) (s : Rand.Stream) :
  Rand.valid s -> 0 < total -> 0 <= index <= total ->
  let td := fst (getTreeData index total s) in
  let p := pos td in
  Vector3.y p = 18 * (index / total) - 9
  /\ -9 <= Vector3.y p <= 9
  /\ radiusAtHeight td = 7.5 * (1 - index / total)
  /\ 0 <= r td <= radiusAtHeight td
  /\ Vector3.x p * Vector3.x p + Vector3.z p * Vector3.z p = r td * r td
  /\ yPercent td = index / total
  /\ snd (getTreeData index total s) = Rand.drop 1 s.
Proof. apply getTreeData_geometry. Qed.

Lemma getTreeData_in_cone_witness :
  let td := fst (getTreeData 30 100 (Rand.const 0.5)) in
  0 <= r td <= radiusAtHeight td.
Proof.
  assert (Ht : 0 < 100) by lra.
  assert (Hi : 0 <= 30 <= 100) by lra.
  exact (proj1 (proj2 (proj2 (proj2
    (getTreeData_in_cone 30 100 (Rand.const 0.5) valid_const_half Ht Hi))))).
Defined.

(* ------------------------------------------------------------------ *)
(** ** The particles a group creates *)
(* ------------------------------------------------------------------ *)

Section ForPush.

Variables (A : Type) (body : nat -> Rand.M A) (k : nat).
Variable P : nat -> A -> Prop.
Hypothesis body_spec : forall i s,
  Rand.valid s -> P i (fst (body i s)) /\ snd (body i s) = Rand.drop k s.

Lemma forPush_S (n i : nat) (s : Rand.Stream) :
  forPush body i (S n) s
  = (let '(a, s1) := body i s in
     let '(rest, s2) := forPush body (S i) n s1 in (a :: rest, s2)).
Proof. reflexivity. Qed.

Lemma forPush_spec (n : nat) :
  forall i s, Rand.valid s ->
  List.length (fst (forPush body i n s)) = n
  /\ (forall j a, nth_error (fst (forPush body i n s)) j = Some a -> P (i + j) a)
  /\ (forall j, snd (forPush body i n s) j = s (k * n + j)%nat).
Proof.
  induction n as [|n IH]; intros i s Hs.
  - cbn. repeat split.
    + intros [|j] a H; discriminate.
    + intros j. f_equal. lia.
  - rewrite forPush_S.
    destruct (body_spec i s Hs) as [Hp Hd].
    destruct (body i s) as [a0 s1]. cbn [fst snd] in Hp, Hd. subst s1.
    destruct (IH (S i) (Rand.drop k s) (valid_drop k s Hs)) as (Hl & Hall & Hrest).
    destruct (forPush body (S i) n (Rand.drop k s)) as [rest s2].
    cbn [fst snd Rand.ret] in *. repeat split.
    + cbn. f_equal. exact Hl.
    + intros [|j] a H; cbn [nth_error] in H.
      * injection H as <-. rewrite Nat.add_0_r. exact Hp.
      * replace (i + S j)%nat with (S i + j)%nat by lia. apply Hall, H.
    + intros j. rewrite Hrest. unfold Rand.drop. f_equal. lia.
Qed.

End ForPush.

Lemma index_ratio (i count : nat) :
  (i < count)%nat -> 0 < INR count /\ 0 <= INR i <= INR count.
Proof.
  intros H. pose proof (pos_INR i). apply lt_INR in H as H'. lra.
Qed.

Section FoliageCreation.

Variables dark mid lite : Color.t.
Variable count : nat.

(** What holds of the foliage particle with index [i]. *)
Let created (i : nat) (p : Foliage.Particle) : Prop :=
  (i < count)%nat ->
  Foliage.currentPos p = Foliage.treePos p
  /\ Vector3.y (Foliage.treePos p) = 18 * (INR i / INR count) - 9
  /\ Vector3.x (Foliage.treePos p) * Vector3.x (Foliage.treePos p)
     + Vector3.z (Foliage.treePos p) * Vector3.z (Foliage.treePos p)
     <= Rsqr (7.5 * (1 - INR i / INR count))
  /\ 0.08 <= Foliage.scale p < 0.14
  /\ 0 <= Foliage.phase p < 2 * PI
  /\ (-25 <= Vector3.x (Foliage.initialPos p) < 25
      /\ -20 <= Vector3.y (Foliage.initialPos p) < 20
      /\ -15 <= Vector3.z (Foliage.initialPos p) < 15).

Lemma foliage_makeParticle_eq (i : nat) (s : Rand.Stream) :
  Foliage.makeParticle dark mid lite count i s
  = ({| Foliage.initialPos :=
          Vector3.mk ((s 3%nat - 0.5) * 50) ((s 4%nat - 0.5) * 40)
                     ((s 5%nat - 0.5) * 30);
        Foliage.treePos := pos (fst (getTreeData (INR i) (INR count) s));
        Foliage.currentPos := pos (fst (getTreeData (INR i) (INR count) s));
        Foliage.scale := 0.08 + s 6%nat * 0.06;
        Foliage.color :=
          Color.multiplyScalar
            (if Rgtb (s 2%nat) 0.8
             then Color.lerp (Color.lerpColors dark lite (s 1%nat)) mid 0.5
             else Color.lerpColors dark lite (s 1%nat))
            Foliage.GLOW_INTENSITY;
        Foliage.phase := s 7%nat * PI * 2 |}, Rand.drop 8 s).
Proof. reflexivity. Qed.

Lemma foliage_makeParticle_spec (i : nat) (s : Rand.Stream) :
  Rand.valid s ->
  created i (fst (Foliage.makeParticle dark mid lite count i s))
  /\ snd (Foliage.makeParticle dark mid lite count i s) = Rand.drop 8 s.
Proof.
  intros Hs. rewrite foliage_makeParticle_eq. cbn [fst snd].
  split; [|reflexivity]. intros Hi.
  destruct (index_ratio i count Hi) as [Hc Hr].
  pose proof (getTreeData_geometry (INR i) (INR count) s Hs Hc Hr) as G.
  cbv zeta in G. destruct G as (Gy & _ & Gr & Gb & Gc & _ & _).
  cbn [Foliage.currentPos Foliage.treePos Foliage.scale Foliage.phase
       Foliage.initialPos Vector3.x Vector3.y Vector3.z].
  pose proof (Hs 6%nat) as H6. pose proof (Hs 7%nat) as H7.
  pose proof (scatter_bounds _ _ _ (Hs 3%nat) (Hs 4%nat) (Hs 5%nat)) as Hb.
  pose proof PI_RGT_0 as Hpi.
  repeat match goal with |- _ /\ _ => split end;
    try reflexivity; try exact Gy; try apply Hb; try lra; try nra.
  rewrite Gc, <- Gr. unfold Rsqr. nra.
Qed.

(** X10. With draws in [0, 1), the foliage group creates exactly [count]
    particles using eight draws each.  The particle with index i starts on
    its tree position, which has height 18 * i / count - 9 and lies within
    the cone radius 7.5 * (1 - i / count) of the axis; its scale is in
    [0.08, 0.14), its phase in [0, 2 pi) and its scatter position in the
    box [-25, 25) x [-20, 20) x [-15, 15). *)
Theorem foliage_particles_created (s : Rand.Stream) :
  Rand.valid s ->
  let ps := fst (Foliage.makeParticles dark mid lite count s) in
  List.length ps = count
  /\ (forall i p, nth_error ps i = Some p ->
        Foliage.currentPos p = Foliage.treePos p
        /\ Vector3.y (Foliage.treePos p) = 18 * (INR i / INR count) - 9
        /\ Vector3.x (Foliage.treePos p) * Vector3.x (Foliage.treePos p)
           + Vector3.z (Foliage.treePos p) * Vector3.z (Foliage.treePos p)
           <= Rsqr (7.5 * (1 - INR i / INR count))
        /\ 0.08 <= Foliage.scale p < 0.14
        /\ 0 <= Foliage.phase p < 2 * PI
        /\ (-25 <= Vector3.x (Foliage.initialPos p) < 25
            /\ -20 <= Vector3.y (Foliage.initialPos p) < 20
            /\ -15 <= Vector3.z (Foliage.initialPos p) < 15))
  /\ (forall j, snd (Foliage.makeParticles dark mid lite count s) j
                = s (8 * count + j)%nat).
Proof.
  intros Hs. cbv zeta. unfold Foliage.makeParticles.
  destruct (forPush_spec _ (Foliage.makeParticle dark mid lite count) 8 created
              foliage_makeParticle_spec count 0 s Hs) as (Hl & Hall & Hrest).
  split; [exact Hl|]. split; [|exact Hrest].
  intros i p Hp. apply (Hall i p Hp).
  assert (Hi : nth_error (fst (forPush (Foliage.makeParticle dark mid lite count) 0 count s)) i <> None)
    by (rewrite Hp; discriminate).
  apply nth_error_Some in Hi. lia.
Qed.

End FoliageCreation.

Lemma foliage_particles_created_witness :
  List.length
    (fst (Foliage.makeParticles (Color.mk 0 0.3 0.1) (Color.mk 0.2 0.8 0.3)
            (Color.mk 0.4 1 0.6) 2 (Rand.const 0.5))) = 2%nat.
Proof.
  exact (proj1 (foliage_particles_created (Color.mk 0 0.3 0.1)
                  (Color.mk 0.2 0.8 0.3) (Color.mk 0.4 1 0.6) 2
                  (Rand.const 0.5) valid_const_half)).
Defined.

Section RibbonCreation.

Variables gold red : Color.t.
Variable count : nat.

(** What holds of the ribbon particle with index [i]. *)
Let created (i : nat) (p : Ribbons.Particle) : Prop :=
  (i < count)%nat ->
  Ribbons.currentPos p = Ribbons.treePos p
  /\ Ribbons.y p = 18 * (INR i / INR count) - 9
  /\ Vector3.y (Ribbons.treePos p) = Ribbons.y p
  /\ Ribbons.radius p = 7.5 * (1 - INR i / INR count) + 0.6
  /\ Vector3.x (Ribbons.treePos p) * Vector3.x (Ribbons.treePos p)
     + Vector3.z (Ribbons.treePos p) * Vector3.z (Ribbons.treePos p)
     = Ribbons.radius p * Ribbons.radius p
  /\ Ribbons.color p
     = (if Nat.even i then Color.multiplyScalar red 25
        else Color.multiplyScalar gold 30)
  /\ 0.5 <= Ribbons.trailLength p < 1
  /\ (-25 <= Vector3.x (Ribbons.initialPos p) < 25
      /\ -20 <= Vector3.y (Ribbons.initialPos p) < 20
      /\ -15 <= Vector3.z (Ribbons.initialPos p) < 15).

Lemma ribbon_makeParticle_eq (i : nat) (s : Rand.Stream) :
  Ribbons.makeParticle gold red count i s
  = (let y := INR i / INR count * TREE_HEIGHT - TREE_HEIGHT / 2 in
     let radiusAtHeight :=
       (TREE_HEIGHT / 2 - y) * (TREE_RADIUS / TREE_HEIGHT) + 0.6 in
     let finalAngle :=
       y / TREE_HEIGHT * PI * 2 * 6
       + (if Nat.eqb (i mod 2) 0 then 0 else PI)
       + (s 0%nat - 0.5) * 1.5 * 0.1 in
     ({| Ribbons.initialPos :=
           Vector3.mk ((s 2%nat - 0.5) * 50) ((s 3%nat - 0.5) * 40)
                      ((s 4%nat - 0.5) * 30);
         Ribbons.treePos :=
           Vector3.mk (cos finalAngle * radiusAtHeight) y
                      (sin finalAngle * radiusAtHeight);
         Ribbons.currentPos :=
           Vector3.mk (cos finalAngle * radiusAtHeight) y
                      (sin finalAngle * radiusAtHeight);
         Ribbons.color :=
           if Nat.eqb (i mod 2) 0
           then Color.multiplyScalar red Ribbons.RED_INTENSITY
           else Color.multiplyScalar gold Ribbons.GOLD_INTENSITY;
         Ribbons.phase := s 5%nat * PI * 2;
         Ribbons.angle := finalAngle;
         Ribbons.radius := radiusAtHeight;
         Ribbons.y := y;
         Ribbons.trailLength := 0.5 + s 1%nat * 0.5 |}, Rand.drop 6 s)).
Proof. reflexivity. Qed.

Lemma even_mod2 (i : nat) : Nat.eqb (i mod 2) 0 = Nat.even i.
Proof.
  rewrite <- Nat.bit0_mod, Nat.bit0_odd, <- Nat.negb_even.
  destruct (Nat.even i); reflexivity.
Qed.

Lemma ribbon_makeParticle_spec (i : nat) (s : Rand.Stream) :
  Rand.valid s ->
  created i (fst (Ribbons.makeParticle gold red count i s))
  /\ snd (Ribbons.makeParticle gold red count i s) = Rand.drop 6 s.
Proof.
  intros Hs. rewrite ribbon_makeParticle_eq. cbv zeta. cbn [fst snd].
  split; [|reflexivity]. intros Hi.
  destruct (index_ratio i count Hi) as [Hc Hr].
  cbn [Ribbons.currentPos Ribbons.treePos Ribbons.y Ribbons.radius
       Ribbons.color Ribbons.trailLength Ribbons.initialPos
       Vector3.x Vector3.y Vector3.z].
  unfold TREE_HEIGHT, TREE_RADIUS, Ribbons.RED_INTENSITY, Ribbons.GOLD_INTENSITY.
  rewrite even_mod2.
  pose proof (Hs 1%nat) as H1.
  pose proof (scatter_bounds _ _ _ (Hs 2%nat) (Hs 3%nat) (Hs 4%nat)) as Hb.
  set (q := INR i / INR count).
  repeat match goal with |- _ /\ _ => split end;
    try reflexivity; try apply Hb; try lra.
  match goal with
  | |- cos ?a * ?k * (cos ?a * ?k) + sin ?a * ?k * (sin ?a * ?k) = _ =>
      replace (cos a * k * (cos a * k) + sin a * k * (sin a * k))
        with ((Rsqr (sin a) + Rsqr (cos a)) * (k * k)) by (unfold Rsqr; ring);
      rewrite sin2_cos2; ring
  end.
Qed.

(** X11. With draws in [0, 1), the ribbon group creates exactly [count]
    particles using six draws each.  The particle with index i starts on
    its tree position, at height 18 * i / count - 9 and at the distance
    7.5 * (1 - i / count) + 0.6 from the axis, which it records as its
    orbit height and radius; particles of even index are red (intensity
    25) and those of odd index gold (intensity 30); the trail length is in
    [0.5, 1) and the scatter position in the box
    [-25, 25) x [-20, 20) x [-15, 15). *)
Theorem ribbon_particles_created (s : Rand.Stream) :
  Rand.valid s ->
  let ps := fst (Ribbons.makeParticles gold red count s) in
  List.length ps = count
  /\ (forall i p, nth_error ps i = Some p ->
        Ribbons.currentPos p = Ribbons.treePos p
        /\ Ribbons.y p = 18 * (INR i / INR count) - 9
        /\ Vector3.y (Ribbons.treePos p) = Ribbons.y p
        /\ Ribbons.radius p = 7.5 * (1 - INR i / INR count) + 0.6
        /\ Vector3.x (Ribbons.treePos p) * Vector3.x (Ribbons.treePos p)
           + Vector3.z (Ribbons.treePos p) * Vector3.z (Ribbons.treePos p)
           = Ribbons.radius p * Ribbons.radius p
        /\ Ribbons.color p
           = (if Nat.even i then Color.multiplyScalar red 25
              else Color.multiplyScalar gold 30)
        /\ 0.5 <= Ribbons.trailLength p < 1
        /\ (-25 <= Vector3.x (Ribbons.initialPos p) < 25
            /\ -20 <= Vector3.y (Ribbons.initialPos p) < 20
            /\ -15 <= Vector3.z (Ribbons.initialPos p) < 15))
  /\ (forall j, snd (Ribbons.makeParticles gold red count s) j
                = s (6 * count + j)%nat).
Proof.
  intros Hs. cbv zeta. unfold Ribbons.makeParticles.
  destruct (forPush_spec _ (Ribbons.makeParticle gold red count) 6 created
              ribbon_makeParticle_spec count 0 s Hs) as (Hl & Hall & Hrest).
  split; [exact Hl|]. split; [|exact Hrest].
  intros i p Hp. apply (Hall i p Hp).
  assert (Hi : nth_error (fst (forPush (Ribbons.makeParticle gold red count) 0 count s)) i <> None)
    by (rewrite Hp; discriminate).
  apply nth_error_Some in Hi. lia.
Qed.

End RibbonCreation.

Lemma ribbon_particles_created_witness :
  List.length
    (fst (Ribbons.makeParticles (Color.mk 1 0.4 0) (Color.mk 1 0 0) 2
            (Rand.const 0.5))) = 2%nat.
Proof.
  exact (proj1 (ribbon_particles_created (Color.mk 1 0.4 0) (Color.mk 1 0 0) 2
                  (Rand.const 0.5) valid_const_half)).
Defined.

(* ------------------------------------------------------------------ *)
(** ** Targets of the idle motion *)
(* ------------------------------------------------------------------ *)

Lemma circle_point (a k : R) :
  cos a * k * (cos a * k) + sin a * k * (sin a * k) = k * k.
Proof.
  replace (cos a * k * (cos a * k) + sin a * k * (sin a * k))
    with ((Rsqr (sin a) + Rsqr (cos a)) * (k * k)) by (unfold Rsqr; ring).
  rewrite sin2_cos2. ring.
Qed.

(** X12. In TREE mode the target of a ribbon particle runs on a circle
    about the vertical axis: it stays at the height and at the radius the
    particle recorded, it comes back after 2 pi seconds, and at time 0 it
    is the tree position of a particle just created. *)
Theorem ribbon_target_orbits (time : R) (p : Ribbons.Particle)
    (gold red : Color.t) (count i : nat) (s : Rand.Stream) :
  let t := Ribbons.target TREE time p in
  Vector3.y t = Ribbons.y p
  /\ Vector3.x t * Vector3.x t + Vector3.z t * Vector3.z t
     = Ribbons.radius p * Ribbons.radius p
  /\ Ribbons.target TREE (time + 2 * PI) p = t
  /\ Ribbons.target TREE 0 (fst (Ribbons.makeParticle gold red count i s))
     = Ribbons.treePos (fst (Ribbons.makeParticle gold red count i s)).
Proof.
  cbv zeta. unfold Ribbons.target.
  cbn [Vector3.x Vector3.y Vector3.z].
  split; [reflexivity|]. split; [apply circle_point|]. split.
  - replace (Ribbons.angle p - (time + 2 * PI) * 1)
      with (Ribbons.angle p - time * 1 - 2 * PI) by ring.
    unfold Rminus at 1 3.
    rewrite <- (cos_period (Ribbons.angle p - time * 1 + - (2 * PI)) 1),
            <- (sin_period (Ribbons.angle p - time * 1 + - (2 * PI)) 1).
    replace (Ribbons.angle p - time * 1 + - (2 * PI) + 2 * INR 1 * PI)
      with (Ribbons.angle p - time * 1) by (simpl; ring).
    reflexivity.
  - rewrite ribbon_makeParticle_eq. cbv zeta. cbn [fst].
    cbn [Ribbons.angle Ribbons.radius Ribbons.y Ribbons.treePos].
    match goal with
    | |- context [cos (?a - 0 * 1)] => replace (a - 0 * 1) with a by ring
    end.
    reflexivity.
Qed.

Lemma distanceTo_along_x (v : Vector3.t) (d : R) :
  Vector3.distanceTo
    (Vector3.mk (Vector3.x v + d) (Vector3.y v) (Vector3.z v)) v = Rabs d.
Proof.
  unfold Vector3.distanceTo. cbn [Vector3.x Vector3.y Vector3.z].
  match goal with
  | |- sqrt ?e = _ => replace e with (Rsqr d) by (unfold Rsqr; ring)
  end.
  apply sqrt_Rsqr_abs.
Qed.

Lemma distanceTo_along_y (v : Vector3.t) (d : R) :
  Vector3.distanceTo
    (Vector3.mk (Vector3.x v) (Vector3.y v + d) (Vector3.z v)) v = Rabs d.
Proof.
  unfold Vector3.distanceTo. cbn [Vector3.x Vector3.y Vector3.z].
  match goal with
  | |- sqrt ?e = _ => replace e with (Rsqr d) by (unfold Rsqr; ring)
  end.
  apply sqrt_Rsqr_abs.
Qed.

Lemma Rabs_sin_scaled (a k : R) : 0 <= k -> Rabs (sin a * k) <= k.
Proof.
  intros Hk. pose proof (SIN_bound a) as [H1 H2].
  apply Rabs_le. split; nra.
Qed.

(** X13. The idle motion keeps every target near its anchor: a foliage
    target is within 0.05 of the tree position in TREE mode and within 0.5
    of the scatter position in SCATTER mode; a ribbon target is within 1
    of the scatter position outside TREE mode; a photo target in SCATTER
    mode is within 0.5 of the scatter position along x and along y and has
    its z; and in TREE mode a photo target keeps the height of the tree
    position and its distance from the vertical axis. *)
Theorem idle_targets_stay_near (time : R) (f : Foliage.Particle)
    (rb : Ribbons.Particle) (m : AppMode)
    (id : nat) (url : string) (t0 t1 t2 i0 i1 i2 : R) (active : bool) :
  Vector3.distanceTo (Foliage.target TREE time f) (Foliage.treePos f) <= 0.05
  /\ Vector3.distanceTo (Foliage.target SCATTER time f) (Foliage.initialPos f)
     <= 0.5
  /\ (m <> TREE ->
      Vector3.distanceTo (Ribbons.target m time rb) (Ribbons.initialPos rb) <= 1)
  /\ (let t := SinglePhoto.target
                 (SinglePhoto.mkProps id url (t0, t1, t2) (i0, i1, i2)
                    SCATTER active) time in
      Rabs (Vector3.x t - i0) <= 0.5 /\ Rabs (Vector3.y t - i1) <= 0.5
      /\ Vector3.z t = i2)
  /\ (let t := SinglePhoto.target
                 (SinglePhoto.mkProps id url (t0, t1, t2) (i0, i1, i2)
                    TREE active) time in
      Vector3.y t = t1
      /\ Vector3.x t * Vector3.x t + Vector3.z t * Vector3.z t
         = t0 * t0 + t2 * t2).
Proof.
  cbv zeta. repeat match goal with |- _ /\ _ => split end.
  - unfold Foliage.target. rewrite distanceTo_along_x.
    apply Rabs_sin_scaled. lra.
  - unfold Foliage.target. rewrite distanceTo_along_y.
    apply Rabs_sin_scaled. lra.
  - intros Hm.
    assert (E : Ribbons.target m time rb
                = Vector3.mk (Vector3.x (Ribbons.initialPos rb))
                    (Vector3.y (Ribbons.initialPos rb)
                     + sin (time + Ribbons.phase rb))
                    (Vector3.z (Ribbons.initialPos rb))).
    { destruct m; try contradiction; reflexivity. }
    rewrite E, distanceTo_along_y.
    replace (sin (time + Ribbons.phase rb))
      with (sin (time + Ribbons.phase rb) * 1) by ring.
    apply Rabs_sin_scaled. lra.
  - cbn. replace (i0 + sin (time * 0.5 + INR id) * 0.5 - i0)
      with (sin (time * 0.5 + INR id) * 0.5) by ring.
    apply Rabs_sin_scaled. lra.
  - cbn. replace (i1 + cos (time * 0.3 + INR id) * 0.5 - i1)
      with (cos (time * 0.3 + INR id) * 0.5) by ring.
    pose proof (COS_bound (time * 0.3 + INR id)) as [H1 H2].
    apply Rabs_le. split; nra.
  - reflexivity.
  - reflexivity.
  - unfold SinglePhoto.target.
    cbn [SinglePhoto.treePos SinglePhoto.initialPos SinglePhoto.mode
         SinglePhoto.id Vector3.x Vector3.y Vector3.z].
    rewrite circle_point, sqrt_sqrt; [simpl; ring|].
    simpl. nra.
Qed.

(* ------------------------------------------------------------------ *)
(** ** Rotation of the scene group *)
(* ------------------------------------------------------------------ *)

Lemma lerp_between (x y t lo hi : R) :
  0 <= t <= 1 -> lo <= x <= hi -> lo <= y <= hi ->
  lo <= Experience.MathUtils_lerp x y t <= hi.
Proof. intros Ht Hx Hy. unfold Experience.MathUtils_lerp. split; nra. Qed.

Lemma scatter_frame_within (handPos : Point2) (delta : R)
    (rot : Experience.Rotation) :
  Poses.normalised handPos -> 0 <= delta <= 0.5 -> Experience.withinParallax rot ->
  Experience.withinParallax (Experience.useFrame true SCATTER handPos delta rot).
Proof.
  intros [Hx Hy] Hd [Rx Ry]. unfold Experience.useFrame, Experience.withinParallax.
  cbn [andb AppMode_eqb Experience.rotX Experience.rotY].
  split; apply lerp_between; lra.
Qed.

(** X14. In SCATTER mode, with the pointer in the unit square and frames
    of at most half a second, a rotation of the group that is within half
    a radian about both axes stays so after any number of frames. *)
Theorem parallax_stays_bounded (handPos : Point2) (delta : R) (n : nat)
    (rot : Experience.Rotation) :
  Poses.normalised handPos -> 0 <= delta <= 0.5 -> Experience.withinParallax rot ->
  Experience.withinParallax (Experience.frames SCATTER handPos delta n rot).
Proof.
  intros Hp Hd Hr. unfold Experience.frames.
  induction n as [|n IH]; cbn [Nat.iter]; [exact Hr|].
  apply scatter_frame_within; assumption.
Qed.

Lemma parallax_stays_bounded_witness :
  Experience.withinParallax
    (Experience.frames SCATTER (mkPoint2 1 0) (1 / 60) 120
       (Experience.mkRotation 0 0)).
Proof.
  apply (parallax_stays_bounded (mkPoint2 1 0) (1 / 60) 120
           (Experience.mkRotation 0 0)).
  - unfold Poses.normalised. cbn [px py]. lra.
  - lra.
  - unfold Experience.withinParallax. cbn [Experience.rotX Experience.rotY]. lra.
Defined.

(** X15. In TREE mode n frames of length delta turn the group by
    n * delta * 0.1 about the vertical axis and multiply its tilt by
    (1 - 2 delta)^n; in INSPECT mode, and while the group is not mounted,
    a frame leaves the rotation as it is. *)
Theorem tree_rotation_and_freeze (handPos : Point2) (delta : R) (n : nat)
    (m : AppMode) (rot : Experience.Rotation) :
  Experience.rotY (Experience.frames TREE handPos delta n rot)
  = Experience.rotY rot + INR n * (delta * 0.1)
  /\ Experience.rotX (Experience.frames TREE handPos delta n rot)
     = (1 - delta * 2) ^ n * Experience.rotX rot
  /\ Experience.frames INSPECT handPos delta n rot = rot
  /\ Experience.useFrame false m handPos delta rot = rot.
Proof.
  unfold Experience.frames. repeat match goal with |- _ /\ _ => split end.
  - induction n as [|n IH]; [simpl; ring|].
    rewrite S_INR. cbn [Nat.iter].
    set (r := Nat.iter n _ rot) in *.
    change (Experience.rotY r + delta * 0.1
            = Experience.rotY rot + (INR n + 1) * (delta * 0.1)).
    rewrite IH. ring.
  - induction n as [|n IH]; [simpl; ring|].
    cbn [Nat.iter].
    set (r := Nat.iter n _ rot) in *.
    change (Experience.MathUtils_lerp (Experience.rotX r) 0 (delta * 2)
            = (1 - delta * 2) ^ S n * Experience.rotX rot).
    rewrite IH. unfold Experience.MathUtils_lerp. simpl. ring.
  - induction n as [|n IH]; [reflexivity|].
    cbn [Nat.iter]. set (r := Nat.iter n _ rot) in *.
    change (r = rot). exact IH.
  - destruct m; reflexivity.
Qed.

(* ------------------------------------------------------------------ *)
(** ** Sequences of gesture events *)
(* ------------------------------------------------------------------ *)

Section GestureRuns.

Variable n : nat.

Lemma run_app (e1 e2 : list HandGestureState) :
  forall s, App.run n (e1 ++ e2) s = App.run n e2 (App.run n e1 s).
Proof.
  induction e1 as [|e rest IH]; intros s; cbn [app App.run]; [reflexivity|].
  apply IH.
Qed.

Lemma handleGestureUpdate_photos (e : HandGestureState) (s : App.State) :
  App.photos (App.handleGestureUpdate n e s) = App.photos s.
Proof. unfold App.handleGestureUpdate. destruct (gesture e); reflexivity. Qed.

Lemma handleGestureUpdate_enters (e : HandGestureState) (s : App.State) :
  App.mode s <> INSPECT ->
  App.mode (App.handleGestureUpdate n e s) = INSPECT ->
  (0 < n)%nat /\ gesture e = PINCH.
Proof.
  intros Hs. unfold App.handleGestureUpdate.
  destruct (gesture e); cbn [App.mode]; try discriminate; try contradiction.
  rewrite pinchUpdater_spec. intros H. split; [|reflexivity].
  destruct (App.mode s), n; cbn in H; try discriminate; try contradiction; lia.
Qed.

Lemma run_enters (events : list HandGestureState) :
  forall s, App.mode s <> INSPECT ->
  App.mode (App.run n events s) = INSPECT ->
  (0 < n)%nat /\ Exists (fun e => gesture e = PINCH) events.
Proof.
  induction events as [|e rest IH]; intros s Hs H; cbn [App.run] in H.
  - contradiction.
  - destruct (AppMode_eqb (App.mode (App.handleGestureUpdate n e s)) INSPECT)
      eqn:E.
    + apply AppMode_eqb_eq in E.
      destruct (handleGestureUpdate_enters e s Hs E) as [Hn Hg].
      split; [exact Hn|]. apply Exists_cons_hd, Hg.
    + assert (Hm : App.mode (App.handleGestureUpdate n e s) <> INSPECT).
      { intros C. rewrite C in E. discriminate. }
      destruct (IH _ Hm H) as [Hn Hex].
      split; [exact Hn|]. apply Exists_cons_tl, Hex.
Qed.

Lemma run_photos (events : list HandGestureState) :
  forall s, App.photos (App.run n events s) = App.photos s.
Proof.
  induction events as [|e rest IH]; intros s; cbn [App.run]; [reflexivity|].
  rewrite IH. apply handleGestureUpdate_photos.
Qed.

Lemma run_none (events : list HandGestureState) :
  Forall (fun e => gesture e = NONE) events ->
  forall s, App.mode (App.run n events s) = App.mode s.
Proof.
  induction 1 as [|e rest He _ IH]; intros s; cbn [App.run]; [reflexivity|].
  rewrite IH. unfold App.handleGestureUpdate. rewrite He. reflexivity.
Qed.

End GestureRuns.

(** X16. Gesture events never change the photo list, and they bring the
    mode to INSPECT from another mode only if the callback saw a positive
    photo count and one of the events was a PINCH. *)
Theorem inspect_needs_pinch_with_photos (n : nat)
    (events : list HandGestureState) (s : App.State) :
  App.photos (App.run n events s) = App.photos s
  /\ (App.mode s <> INSPECT ->
      App.mode (App.run n events s) = INSPECT ->
      (0 < n)%nat /\ Exists (fun e => gesture e = PINCH) events).
Proof.
  split; [apply run_photos|]. intros Hs H. exact (run_enters n events s Hs H).
Qed.

(** X17. Whatever events came before, a final FIST leaves the mode at TREE
    and a final OPEN at SCATTER; and a run of events that all carry NONE
    (frames without a hand among them) leaves the mode where the events
    before it brought it. *)
Theorem last_snap_decides_and_none_holds (n : nat)
    (before : list HandGestureState) (d : bool) (p : Point2) (k : nat)
    (s : App.State) :
  App.mode (App.run n (before ++ [mkHand d FIST p]) s) = TREE
  /\ App.mode (App.run n (before ++ [mkHand d OPEN p]) s) = SCATTER
  /\ App.mode (App.run n (before ++ repeat (mkHand d NONE p) k) s)
     = App.mode (App.run n before s)
  /\ App.mode (App.run n (before ++ repeat Hand.noHand k) s)
     = App.mode (App.run n before s).
Proof.
  rewrite !run_app. repeat match goal with |- _ /\ _ => split end.
  - reflexivity.
  - reflexivity.
  - apply run_none. apply Forall_forall. intros e He.
    apply repeat_spec in He. subst e. reflexivity.
  - apply run_none. apply Forall_forall. intros e He.
    apply repeat_spec in He. subst e. reflexivity.
Qed.

(* ------------------------------------------------------------------ *)
(** ** The callback held by the prediction loop *)
(* ------------------------------------------------------------------ *)

Section HeldCallback.

Lemma session_step_loop (e : Session.Event) (s : Session.State) :
  Session.isLoopStart e = false ->
  Session.loop (Session.step e s) = Session.loop s.
Proof.
  destruct e; cbn [Session.isLoopStart Session.step]; try discriminate;
    intros _; try reflexivity.
  destruct (Session.loop s) eqn:E; [reflexivity|exact E].
Qed.

Lemma session_step_mode (e : Session.Event) (s : Session.State) :
  Session.isLoopStart e = false ->
  Session.loop s = Some 0%nat ->
  App.mode (Session.app s) <> INSPECT ->
  App.mode (Session.app (Session.step e s)) <> INSPECT.
Proof.
  destruct e as [|newPhotos|st]; cbn [Session.isLoopStart]; try discriminate;
    intros _ Hl Hm; cbn [Session.step].
  - exact Hm.
  - rewrite Hl. cbn [Session.app]. intros C.
    destruct (handleGestureUpdate_enters 0 st (Session.app s) Hm C) as [H0 _].
    lia.
Qed.

Lemma session_exec_held (events : list Session.Event) :
  forallb (fun e => negb (Session.isLoopStart e)) events = true ->
  forall s,
  Session.loop (Session.exec events s) = Session.loop s
  /\ (Session.loop s = Some 0%nat ->
      App.mode (Session.app s) <> INSPECT ->
      App.mode (Session.app (Session.exec events s)) <> INSPECT).
Proof.
  induction events as [|e rest IH]; intros Hall s; cbn [Session.exec].
  - split; [reflexivity|]. intros _ H. exact H.
  - cbn [forallb] in Hall. apply andb_prop in Hall as [He Hrest].
    apply negb_true_iff in He.
    destruct (IH Hrest (Session.step e s)) as [IHl IHm].
    rewrite IHl, session_step_loop by exact He.
    split; [reflexivity|]. intros Hl Hm. apply IHm.
    + rewrite session_step_loop by exact He. exact Hl.
    + apply session_step_mode; assumption.
Qed.

End HeldCallback.

(** X18. The prediction loop keeps the gesture callback of the render in
    which it was set up: as long as the loop is not set up again, the
    photo count inside that callback stays what it was.  So when the loop
    starts before the first upload, no later upload and no gesture brings
    the mode to INSPECT. *)
Theorem loop_started_without_photos_never_inspects
    (events : list Session.Event) :
  forallb (fun e => negb (Session.isLoopStart e)) events = true ->
  let s := Session.exec (Session.LoopStarts :: events) Session.init in
  Session.loop s = Some 0%nat
  /\ App.mode (Session.app s) <> INSPECT.
Proof.
  intros Hall. cbv zeta. cbn [Session.exec].
  destruct (session_exec_held events Hall
              (Session.step Session.LoopStarts Session.init)) as [Hl Hm].
  split; [rewrite Hl; reflexivity|].
  apply Hm; [reflexivity|]. cbn. discriminate.
Qed.

Lemma loop_started_without_photos_never_inspects_witness :
  let s := Session.exec
             [ Session.LoopStarts;
               Session.Upload ["a.jpg"%string];
               Session.Frame (mkHand true PINCH (mkPoint2 0.5 0.5)) ]
             Session.init in
  Session.loop s = Some 0%nat
  /\ App.mode (Session.app s) <> INSPECT.
Proof.
  exact (loop_started_without_photos_never_inspects
           [ Session.Upload ["a.jpg"%string];
             Session.Frame (mkHand true PINCH (mkPoint2 0.5 0.5)) ]
           eq_refl).
Defined.

(* ------------------------------------------------------------------ *)
(** ** The photo collection inside the scene *)
(* ------------------------------------------------------------------ *)

Section Children.

Variables (mode : AppMode) (a : option nat) (total : nat).

Lemma mapPhotos_cons (i : nat) (u : string) (rest : list string)
    (s : Rand.Stream) :
  PhotoCollection.mapPhotos (PhotoCollection.photoProps mode a total) i
    (u :: rest) s
  = (let '(p, s1) := PhotoCollection.photoProps mode a total i u s in
     let '(ps, s2) :=
       PhotoCollection.mapPhotos (PhotoCollection.photoProps mode a total)
         (S i) rest s1 in
     (p :: ps, s2)).
Proof. reflexivity. Qed.

Lemma photoProps_fields (i : nat) (u : string) (s : Rand.Stream) :
  let p := fst (PhotoCollection.photoProps mode a total i u s) in
  SinglePhoto.url p = u /\ SinglePhoto.id p = i /\ SinglePhoto.mode p = mode
  /\ snd (PhotoCollection.photoProps mode a total i u s) = Rand.drop 4 s.
Proof. repeat split. Qed.

Lemma mapPhotos_fields (photos : list string) :
  forall (i : nat) (s : Rand.Stream),
  let ps := fst (PhotoCollection.mapPhotos
                   (PhotoCollection.photoProps mode a total) i photos s) in
  map SinglePhoto.url ps = photos
  /\ map SinglePhoto.id ps = seq i (List.length photos)
  /\ Forall (fun p => SinglePhoto.mode p = mode) ps
  /\ (Rand.valid s ->
      Rand.valid (snd (PhotoCollection.mapPhotos
                         (PhotoCollection.photoProps mode a total) i photos s))).
Proof.
  induction photos as [|u rest IH]; intros i s; cbv zeta.
  - cbn [PhotoCollection.mapPhotos Rand.ret fst snd map List.length seq].
    split; [reflexivity|]. split; [reflexivity|].
    split; [apply Forall_nil|]. intros Hv. exact Hv.
  - rewrite mapPhotos_cons.
    destruct (photoProps_fields i u s) as (Hu & Hi & Hm & Hs).
    destruct (PhotoCollection.photoProps mode a total i u s) as [p s1].
    cbn [fst snd] in Hu, Hi, Hm, Hs. subst s1.
    specialize (IH (S i) (Rand.drop 4 s)). cbv zeta in IH.
    destruct IH as (IHu & IHi & IHm & IHs).
    destruct (PhotoCollection.mapPhotos _ (S i) rest (Rand.drop 4 s)) as [ps s2].
    cbn [fst snd map List.length seq] in *.
    repeat match goal with |- _ /\ _ => split end.
    + rewrite Hu, IHu. reflexivity.
    + rewrite Hi, IHi. reflexivity.
    + constructor; assumption.
    + intros Hv. apply IHs, valid_drop, Hv.
Qed.

End Children.

Lemma exec_photos (events : list Scene.Event) :
  forall s,
  App.photos (Scene.app (Scene.exec events s))
  = App.photos (Scene.app s) ++ Scene.uploaded events.
Proof.
  induction events as [|e rest IH]; intros s; cbn [Scene.exec Scene.uploaded].
  - rewrite app_nil_r. reflexivity.
  - rewrite IH. destruct e as [n st|newPhotos|]; cbn [Scene.step].
    + unfold Scene.rerender. destruct (PhotoCollection.render _ _ _ _).
      cbn [Scene.app]. rewrite handleGestureUpdate_photos. reflexivity.
    + unfold Scene.rerender. destruct (PhotoCollection.render _ _ _ _).
      cbn [Scene.app App.handlePhotoUpload App.photos].
      rewrite app_assoc. reflexivity.
    + destruct (PhotoCollection.flushEffect _ _). reflexivity.
Qed.

(** X19. In every state the scene can reach, the photo list is the
    concatenation of the uploaded batches in their order, and the photo
    collection draws exactly one child per photo: the children carry the
    urls of the list in order, the ids 0, 1, 2, ... and the mode of the
    main component. *)
Theorem children_mirror_uploads (events : list Scene.Event) (g : Rand.Stream) :
  let s := Scene.exec events (Scene.mount g) in
  let children := PhotoCollection.shown (Scene.collection s) in
  App.photos (Scene.app s) = Scene.uploaded events
  /\ map SinglePhoto.url children = App.photos (Scene.app s)
  /\ map SinglePhoto.id children
     = seq 0 (List.length (App.photos (Scene.app s)))
  /\ Forall (fun p => SinglePhoto.mode p = App.mode (Scene.app s)) children.
Proof.
  cbv zeta. split.
  - rewrite exec_photos. unfold Scene.mount, Scene.rerender.
    destruct (PhotoCollection.render _ _ _ _). reflexivity.
  - pose proof (exec_consistent events _ (mount_consistent g)) as Hc.
    destruct Hc as (_ & [s' Hs] & _). rewrite Hs.
    unfold PhotoCollection.renderPhotos.
    destruct (mapPhotos_fields (App.mode (Scene.app (Scene.exec events (Scene.mount g))))
                (PhotoCollection.activeId
                   (Scene.collection (Scene.exec events (Scene.mount g))))
                (1000 + List.length
                          (App.photos (Scene.app (Scene.exec events (Scene.mount g)))))
                (App.photos (Scene.app (Scene.exec events (Scene.mount g))))
                0 s') as (Hu & Hi & Hm & _).
    repeat split; assumption.
Qed.

Lemma flags_seq_one (k n : nat) :
  forall i, (i <= k < i + n)%nat ->
  List.length (filter (fun b : bool => b)
                 (map (PhotoCollection.isActiveId (Some k)) (seq i n))) = 1%nat.
Proof.
  induction n as [|n IH]; intros i Hk; [lia|].
  cbn [seq map filter PhotoCollection.isActiveId].
  destruct (Nat.eqb_spec i k) as [->|Hne].
  - cbn [List.length]. f_equal.
    change (List.length (filter (fun b : bool => b)
              (map (PhotoCollection.isActiveId (Some k)) (seq (S k) n))) = 0%nat).
    rewrite flags_seq_below by lia. reflexivity.
  - apply IH. lia.
Qed.

Lemma renderPhotos_one_focus (mode : AppMode) (photos : list string)
    (k : nat) (s : Rand.Stream) :
  (k < List.length photos)%nat ->
  List.length
    (filter SinglePhoto.isActive
       (fst (PhotoCollection.renderPhotos mode photos (Some k) s))) = 1%nat.
Proof.
  intros Hk. unfold PhotoCollection.renderPhotos.
  rewrite filter_length_flags, mapPhotos_isActive. apply flags_seq_one. lia.
Qed.

Lemma effect_valid (m : AppMode) (ph : list string) (s : Rand.Stream) :
  Rand.valid s -> Rand.valid (snd (PhotoCollection.effect m ph s)).
Proof.
  intros Hs. unfold PhotoCollection.effect.
  destruct (AppMode_eqb m INSPECT && (0 <? List.length ph)%nat).
  - exact (valid_drop 1 s Hs).
  - exact Hs.
Qed.

Lemma renderPhotos_valid (m : AppMode) (ph : list string) (a : option nat)
    (s : Rand.Stream) :
  Rand.valid s -> Rand.valid (snd (PhotoCollection.renderPhotos m ph a s)).
Proof.
  unfold PhotoCollection.renderPhotos.
  apply (mapPhotos_fields m a (1000 + List.length ph) ph 0 s).
Qed.

Section Picks.

Import PhotoCollection.

(** With no effect scheduled, INSPECT mode and a photo, the focus is set
    to an index of the photo list. *)
Let picks (m : AppMode) (ph : list string) (c : Instance) : Prop :=
  pendingEffect c = None -> m = INSPECT -> ph <> [] ->
  exists k, activeId c = Some k /\ (k < List.length ph)%nat.

Lemma runPending_picks (m : AppMode) (ph : list string) (c : Instance)
    (s : Rand.Stream) :
  rendered m ph c -> picks m ph c -> Rand.valid s ->
  (m = INSPECT -> ph <> [] ->
   exists k, activeId (fst (runPending c s)) = Some k
             /\ (k < List.length ph)%nat)
  /\ Rand.valid (snd (runPending c s)).
Proof.
  intros (Hd & Hs & Hp) Hk Hv. unfold runPending.
  destruct (pendingEffect c) as [[m0 ph0]|] eqn:E.
  - injection Hp as -> ->. unfold Rand.bind.
    pose proof (effect_valid m ph s Hv) as Hv'.
    destruct (effect m ph s) as [a s1] eqn:Ee. cbn [Rand.ret fst snd activeId] in *.
    split; [|exact Hv']. intros -> Hne.
    destruct (effect_index_in_range ph s Hv Hne) as (k & Hek & Hlt).
    rewrite Hek in Ee. injection Ee as <- _. exists k. split; [reflexivity|exact Hlt].
  - cbn [Rand.ret fst snd]. split; [|exact Hv]. intros Hm Hne.
    apply Hk; [exact E|exact Hm|exact Hne].
Qed.

Lemma render_picks (m m0 : AppMode) (ph ph0 : list string) (c : Instance)
    (s : Rand.Stream) :
  rendered m0 ph0 c -> picks m0 ph0 c -> Rand.valid s ->
  picks m ph (fst (render m ph c s)) /\ Rand.valid (snd (render m ph c s)).
Proof.
  intros Hc Hk Hv. unfold render, Rand.bind.
  pose proof (runPending_rendered m0 ph0 c s Hc) as H. cbv zeta in H.
  pose proof (runPending_picks m0 ph0 c s Hc Hk Hv) as [Hpk Hv1].
  destruct (runPending c s) as [c1 s1]. cbn [fst snd] in H, Hpk, Hv1.
  destruct H as (Hd & _ & _ & _ & _).
  pose proof (renderPhotos_valid m ph (activeId c1) s1 Hv1) as Hv2.
  destruct (renderPhotos m ph (activeId c1) s1) as [ps s2].
  cbn [Rand.ret fst snd] in *. split; [|exact Hv2].
  unfold picks. cbn [pendingEffect activeId]. rewrite Hd.
  destruct (deps_eqb (Some (m0, ph0)) m ph) eqn:Ed; [|discriminate].
  apply deps_eqb_eq in Ed as [-> ->]. intros _. exact Hpk.
Qed.

Lemma mount_picks (m : AppMode) (ph : list string) (s : Rand.Stream) :
  Rand.valid s ->
  picks m ph (fst (render m ph unmounted s))
  /\ Rand.valid (snd (render m ph unmounted s)).
Proof.
  intros Hv. unfold render, Rand.bind.
  cbn [runPending unmounted pendingEffect Rand.ret activeId].
  pose proof (renderPhotos_valid m ph None s Hv) as Hv2.
  destruct (renderPhotos m ph None s) as [ps s2].
  cbn [Rand.ret fst snd lastDeps deps_eqb] in *. split; [|exact Hv2].
  unfold picks. cbn [pendingEffect]. discriminate.
Qed.

Lemma flushEffect_picks (m : AppMode) (ph : list string) (c : Instance)
    (s : Rand.Stream) :
  rendered m ph c -> picks m ph c -> Rand.valid s ->
  picks m ph (fst (flushEffect c s)) /\ Rand.valid (snd (flushEffect c s)).
Proof.
  intros Hc Hk Hv. pose proof Hc as (Hd & _ & _).
  unfold flushEffect. rewrite Hd.
  destruct (pendingEffect c) as [d|] eqn:E.
  - unfold Rand.bind.
    pose proof (runPending_picks m ph c s Hc Hk Hv) as [Hpk Hv1].
    destruct (runPending c s) as [c1 s1]. cbn [fst snd] in Hpk, Hv1.
    destruct (activeId_eqb (activeId c1) (activeId c)).
    + cbn [Rand.ret fst snd]. split; [|exact Hv1]. intros _. exact Hpk.
    + pose proof (renderPhotos_valid m ph (activeId c1) s1 Hv1) as Hv2.
      destruct (renderPhotos m ph (activeId c1) s1) as [ps s2].
      cbn [Rand.ret fst snd] in *. split; [|exact Hv2].
      unfold picks. cbn [pendingEffect activeId]. intros _. exact Hpk.
  - cbn [Rand.ret fst snd]. split; [exact Hk|exact Hv].
Qed.

(** The invariant of the scene for a well-formed random source. *)
Let picking (s : Scene.State) : Prop :=
  Scene.consistent s
  /\ picks (App.mode (Scene.app s)) (App.photos (Scene.app s)) (Scene.collection s)
  /\ Rand.valid (Scene.rng s).

Lemma rerender_picking (a : App.State) (s : Scene.State) :
  picking s -> picking (Scene.rerender a s).
Proof.
  intros (Hc & Hk & Hv). split; [apply rerender_consistent, Hc|].
  unfold Scene.consistent in Hc. unfold Scene.rerender.
  pose proof (render_picks (App.mode a) _ (App.photos a) _ _ _ Hc Hk Hv) as R.
  destruct (PhotoCollection.render _ _ _ _) as [c g]. exact R.
Qed.

Lemma mount_picking (g : Rand.Stream) : Rand.valid g -> picking (Scene.mount g).
Proof.
  intros Hv. split; [apply mount_consistent|].
  unfold Scene.mount, Scene.rerender. cbn [Scene.collection Scene.rng].
  pose proof (mount_picks (App.mode App.init) (App.photos App.init) g Hv) as R.
  destruct (PhotoCollection.render _ _ _ _) as [c g']. exact R.
Qed.

Lemma step_picking (e : Scene.Event) (s : Scene.State) :
  picking s -> picking (Scene.step e s).
Proof.
  intros H. destruct e as [n st|newPhotos|]; cbn [Scene.step].
  - apply rerender_picking, H.
  - apply rerender_picking, H.
  - destruct H as (Hc & Hk & Hv).
    split; [apply (step_consistent Scene.EffectsRun s Hc)|].
    unfold Scene.consistent in Hc.
    pose proof (flushEffect_picks _ _ _ _ Hc Hk Hv) as R.
    destruct (PhotoCollection.flushEffect _ _) as [c g]. exact R.
Qed.

Lemma exec_picking (events : list Scene.Event) :
  forall s, picking s -> picking (Scene.exec events s).
Proof.
  induction events as [|e rest IH]; intros s H; cbn [Scene.exec].
  - exact H.
  - apply IH, step_picking, H.
Qed.

Lemma settled_inspect_focus (events : list Scene.Event) (g : Rand.Stream) :
  Rand.valid g ->
  let s := Scene.step Scene.EffectsRun (Scene.exec events (Scene.mount g)) in
  App.mode (Scene.app s) = INSPECT ->
  App.photos (Scene.app s) <> [] ->
  List.length (Scene.focused s) = 1%nat.
Proof.
  intros Hv. cbv zeta. intros Hm Hne.
  pose proof (exec_picking events _ (mount_picking g Hv)) as H0.
  pose proof (effectsRun_settled _ (proj1 H0)) as Hp.
  pose proof (step_picking Scene.EffectsRun _ H0) as (Hc & Hk & _).
  destruct (Hk Hp Hm Hne) as (k & Ha & Hlt).
  destruct Hc as (_ & [s' Hs] & _).
  unfold Scene.focused. rewrite Hs, Ha.
  apply renderPhotos_one_focus, Hlt.
Qed.

End Picks.

(** X20. With draws in [0, 1): once the effects have run, if the mode is
    INSPECT and there is at least one photo, exactly one photo is drawn as
    focused. *)
Theorem one_focus_in_inspect (events : list Scene.Event) (g : Rand.Stream) :
  Rand.valid g ->
  let s := Scene.step Scene.EffectsRun (Scene.exec events (Scene.mount g)) in
  App.mode (Scene.app s) = INSPECT ->
  App.photos (Scene.app s) <> [] ->
  List.length (Scene.focused s) = 1%nat.
Proof. apply settled_inspect_focus. Qed.

Lemma one_focus_in_inspect_witness :
  List.length
    (Scene.focused
       (Scene.step Scene.EffectsRun
          (Scene.exec
             [ Scene.Upload ["a.jpg"%string; "b.jpg"%string];
               Scene.GestureEvent 2 (mkHand true PINCH (mkPoint2 0.5 0.5)) ]
             (Scene.mount (Rand.const 0.5))))) = 1%nat.
Proof.
  apply (one_focus_in_inspect
           [ Scene.Upload ["a.jpg"%string; "b.jpg"%string];
             Scene.GestureEvent 2 (mkHand true PINCH (mkPoint2 0.5 0.5)) ]
           (Rand.const 0.5) valid_const_half).
  - reflexivity.
  - assert (E : App.photos
                  (Scene.app
                     (Scene.step Scene.EffectsRun
                        (Scene.exec
                           [ Scene.Upload ["a.jpg"%string; "b.jpg"%string];
                             Scene.GestureEvent 2
                               (mkHand true PINCH (mkPoint2 0.5 0.5)) ]
                           (Scene.mount (Rand.const 0.5)))))
                = ["a.jpg"%string; "b.jpg"%string]) by reflexivity.
    rewrite E. discriminate.
Defined.

(* ------------------------------------------------------------------ *)
(** ** What frames leave alone *)
(* ------------------------------------------------------------------ *)

Lemma foliage_play_created (fs : list (AppMode * R * R)) :
  forall ps, map Foliage.created (Foliage.play fs ps) = map Foliage.created ps.
Proof.
  unfold Foliage.play. induction fs as [|[[m t] d] rest IH]; intros ps;
    cbn [fold_left]; [reflexivity|].
  rewrite IH. unfold Foliage.useFrame. rewrite map_map. reflexivity.
Qed.

Lemma ribbons_play_created (fs : list (AppMode * R * R)) :
  forall ps, map Ribbons.created (Ribbons.play fs ps) = map Ribbons.created ps.
Proof.
  unfold Ribbons.play. induction fs as [|[[m t] d] rest IH]; intros ps;
    cbn [fold_left]; [reflexivity|].
  rewrite IH. unfold Ribbons.useFrame. rewrite map_map. reflexivity.
Qed.

(** X21. Frames write the current position of a particle and nothing else:
    after any sequence of frames, in whatever modes and of whatever
    lengths, a foliage group and a ribbon group hold the same number of
    particles, each with the scatter position, tree position, colour,
    phase and the other values it was created with. *)
Theorem frames_keep_created_values (fs : list (AppMode * R * R))
    (fol : list Foliage.Particle) (rib : list Ribbons.Particle) :
  map Foliage.created (Foliage.play fs fol) = map Foliage.created fol
  /\ List.length (Foliage.play fs fol) = List.length fol
  /\ map Ribbons.created (Ribbons.play fs rib) = map Ribbons.created rib
  /\ List.length (Ribbons.play fs rib) = List.length rib.
Proof.
  split; [apply foliage_play_created|]. split.
  - rewrite <- (length_map Foliage.created (Foliage.play fs fol)),
      foliage_play_created.
    apply length_map.
  - split; [apply ribbons_play_created|].
    rewrite <- (length_map Ribbons.created (Ribbons.play fs rib)),
      ribbons_play_created.
    apply length_map.
Qed.
